(** * EPUB container utilities: a shallow embedding of [epub_utils.py]

    The development models the four operations of
    [skills/epub-translator/scripts/epub_utils.py] (extract, list content,
    update metadata, pack) over an explicit file-system tree, an explicit
    ZIP archive value and an ElementTree-like document store, and proves the
    properties stated about them.

    Modelling conventions.
    - A path is a [pathlib] path kept in parsed form: an anchor flag and the
      list of its components.  [str] and [Path] are inverse on such values,
      so results that the script returns as strings of paths are kept as
      paths.
    - The file system is a tree of directories and regular files (no
      symbolic links), together with the current directory against which
      relative paths resolve.
    - A string is a sequence of characters with code points below 256.
    - A regular file holds bytes that are not well-formed XML ([Raw]), a
      well-formed XML file as it comes out of an archive or an editor,
      known by the tree that parsing it gives ([Xml]), or the bytes that
      [ElementTree.write] produces for a tree ([Written]).  Reading a
      written file back goes through the parser again: a text with a
      character that XML does not allow makes the file unreadable, an
      empty text is read as no text, and carriage returns are read as line
      feeds.  A file in the form [Xml] is not in the form that
      [ElementTree.write] produces (it differs at least in its XML
      declaration), so rewriting it changes its bytes.
    - Tag names, attribute names and attribute values are those of a
      parsed document; the script never creates or changes one, and they
      are written back in a form that parses to themselves.  Text after an
      element's end tag, comments and processing instructions are not part
      of the tree the script works on.
    - A ZIP archive is the list of its entries in archive order; an entry
      name is kept as the list of its slash-separated components, so that
      the name [OEBPS/ch1.xhtml] is [["OEBPS"; "ch1.xhtml"]] and the
      directory entry [META-INF/] is [["META-INF"; ""]].  The archive file
      itself lives outside the modelled tree.
    - Element references held in Python variables are positions in the
      document; mutation through a reference is an update at that position.
    - Console output ([print]) is not modelled. *)

From Stdlib Require Import List String Ascii Bool Arith Lia Permutation Sorted.
Import ListNotations.
Open Scope string_scope.
Open Scope list_scope.


(** ** Exceptions and the error monad *)

Inductive exn : Type :=
| FileNotFoundError (msg : string)
| ValueError (msg : string)
| TypeError
| ParseError
| IsADirectoryError
| NotADirectoryError
| FileExistsError.

Inductive result (A : Type) : Type :=
| Ok (a : A)
| Err (e : exn).

Arguments Ok {A} a.
Arguments Err {A} e.

Definition bind {A B : Type} (m : result A) (k : A -> result B) : result B :=
  match m with
  | Ok a => k a
  | Err e => Err e
  end.

Definition rmap {A B : Type} (f : A -> B) (m : result A) : result B :=
  bind m (fun a => Ok (f a)).

Declare Scope result_scope.
Delimit Scope result_scope with result.
Notation "x <- m ;; k" := (bind m (fun x => k))
  (at level 61, m at next level, right associativity) : result_scope.
Notation "' p <- m ;; k" := (bind m (fun p => k))
  (at level 61, p pattern, m at next level, right associativity) : result_scope.
Open Scope result_scope.

(** A [for] loop whose body may raise: the accumulator is threaded through
    the iterations and the first exception aborts the loop. *)
Fixpoint foldM {A S : Type} (f : S -> A -> result S) (l : list A) (s : S)
  : result S :=
  match l with
  | [] => Ok s
  | a :: l' => s' <- f s a ;; foldM f l' s'
  end.

(** The spec's error taxonomy.  [FormatError] is the spec's name for the two
    exceptions that [extract_epub] raises itself; [IOError] is Python's
    [OSError] family as raised by the operating system. *)
Definition FormatError (e : exn) : Prop :=
  e = FileNotFoundError "Invalid EPUB: container.xml not found"
  \/ e = ValueError "No rootfile in container.xml".

Definition IOError (e : exn) : Prop :=
  match e with
  | FileNotFoundError _ | IsADirectoryError | NotADirectoryError
  | FileExistsError => True
  | _ => False
  end.

(** ** Strings *)

(** Python's [needle in haystack] on strings. *)
Fixpoint str_in (needle haystack : string) : bool :=
  String.prefix needle haystack
  || match haystack with
     | EmptyString => false
     | String _ rest => str_in needle rest
     end.

(** Truthiness of a string. *)
Definition truthy (s : string) : bool :=
  match s with
  | EmptyString => false
  | _ => true
  end.

(** Truthiness of an optional string ([None] and [""] are falsy). *)
Definition truthy_opt (o : option string) : bool :=
  match o with
  | Some s => truthy s
  | None => false
  end.

(** [s.split("/")]. *)
Fixpoint split_slash_aux (acc : string) (s : string) : list string :=
  match s with
  | EmptyString => [acc]
  | String c rest =>
      if Ascii.eqb c "/"%char then acc :: split_slash_aux "" rest
      else split_slash_aux (acc ++ String c "") rest
  end.

Definition split_slash (s : string) : list string := split_slash_aux "" s.

Fixpoint mem_str (x : string) (l : list string) : bool :=
  match l with
  | [] => false
  | y :: l' => String.eqb x y || mem_str x l'
  end.

Fixpoint no_slash (s : string) : bool :=
  match s with
  | EmptyString => true
  | String c rest => negb (Ascii.eqb c "/"%char) && no_slash rest
  end.

(** A name that a directory entry can carry. *)
Definition valid_name (s : string) : bool :=
  negb (mem_str s [""; "."; ".."]) && no_slash s.

(** ** Paths ([pathlib.PurePosixPath]) *)

Record path : Type := MkPath {
  anchored : bool;          (* starts at the root directory *)
  parts : list string       (* components after the anchor *)
}.

(** [Path(s)]: empty and [.] components are dropped, [..] is kept. *)
Definition Path (s : string) : path :=
  MkPath (String.prefix "/" s)
         (filter (fun x => negb (mem_str x [""; "."])) (split_slash s)).

(** [p / q]: an anchored right operand replaces the left one. *)
Definition joinpath (p q : path) : path :=
  if anchored q then q else MkPath (anchored p) (parts p ++ parts q).

Notation "p // q" := (joinpath p q) (at level 40, left associativity).

(** [p / name] for a literal single component. *)
Definition child (p : path) (name : string) : path :=
  MkPath (anchored p) (parts p ++ [name]).

(** [p.parent]. *)
Definition parent (p : path) : path :=
  MkPath (anchored p) (removelast (parts p)).

Definition is_absolute (p : path) : bool := anchored p.

Fixpoint list_eqb (l1 l2 : list string) : bool :=
  match l1, l2 with
  | [], [] => true
  | x :: l1', y :: l2' => String.eqb x y && list_eqb l1' l2'
  | _, _ => false
  end.

(** [strip_prefix pre l] is [Some r] when [l = pre ++ r]. *)
Fixpoint strip_prefix (pre l : list string) : option (list string) :=
  match pre with
  | [] => Some l
  | x :: pre' =>
      match l with
      | y :: l' => if String.eqb x y then strip_prefix pre' l' else None
      | [] => None
      end
  end.

(** [p.relative_to(base)]: purely lexical. *)
Definition relative_to (p base : path) : result path :=
  if Bool.eqb (anchored p) (anchored base) then
    match strip_prefix (parts base) (parts p) with
    | Some r => Ok (MkPath false r)
    | None => Err (ValueError "not in the subpath")
    end
  else Err (ValueError "not in the subpath").

(** ** XML documents ([xml.etree.ElementTree]) *)

(** An element: expanded tag name, attributes, text before the first child,
    children.  ([tail] text is never read or written by the script.) *)
#[warnings="-register-all"]
Inductive element : Type :=
| Element (tag : string) (attrib : list (string * string))
          (text : option string) (children : list element).

Definition etag (e : element) : string :=
  match e with Element t _ _ _ => t end.
Definition eattrib (e : element) : list (string * string) :=
  match e with Element _ a _ _ => a end.
Definition etext (e : element) : option string :=
  match e with Element _ _ x _ => x end.
Definition echildren (e : element) : list element :=
  match e with Element _ _ _ c => c end.

(** A reference to an element of a document: the child indices leading to
    it from the root. *)
Definition ref : Type := list nat.

Fixpoint deref (doc : element) (r : ref) : option element :=
  match r with
  | [] => Some doc
  | i :: r' =>
      match nth_error (echildren doc) i with
      | Some c => deref c r'
      | None => None
      end
  end.

(** The first match among the elements [cs], each tried before its own
    descendants; [i] is the index of the head of [cs]. *)
Section FindFirst.
Variable rec : element -> option ref.
Variable tag : string.

Fixpoint find_first (cs : list element) (i : nat) : option ref :=
  match cs with
  | [] => None
  | c :: cs' =>
      if String.eqb (etag c) tag then Some [i]
      else match rec c with
           | Some r => Some (i :: r)
           | None => find_first cs' (S i)
           end
  end.
End FindFirst.

(** First strict descendant of [e] with the given tag, in document order,
    as a position relative to [e]. *)
Fixpoint find_desc (tag : string) (e : element) : option ref :=
  match e with
  | Element _ _ _ cs => find_first (find_desc tag) tag cs 0
  end.

(** [elem.find(".//tag")] for the element referenced by [r]. *)
Definition find (doc : element) (r : ref) (tag : string) : option ref :=
  match deref doc r with
  | Some e =>
      match find_desc tag e with
      | Some q => Some (r ++ q)
      | None => None
      end
  | None => None
  end.

Fixpoint child_indices (tag : string) (cs : list element) (i : nat)
  : list nat :=
  match cs with
  | [] => []
  | c :: cs' =>
      if String.eqb (etag c) tag then i :: child_indices tag cs' (S i)
      else child_indices tag cs' (S i)
  end.

(** [elem.findall("tag")]: the direct children with that tag, in order. *)
Definition findall (doc : element) (r : ref) (tag : string) : list ref :=
  match deref doc r with
  | Some e => map (fun i => r ++ [i]) (child_indices tag (echildren e) 0)
  | None => []
  end.

Fixpoint assoc {A : Type} (k : string) (l : list (string * A)) : option A :=
  match l with
  | [] => None
  | (k', v) :: l' => if String.eqb k k' then Some v else assoc k l'
  end.

(** [elem.get(key)]. *)
Definition get (doc : element) (r : ref) (key : string) : option string :=
  match deref doc r with
  | Some e => assoc key (eattrib e)
  | None => None
  end.

(** [elem.get(key, default)]. *)
Definition get_default (doc : element) (r : ref) (key default : string)
  : string :=
  match get doc r key with
  | Some v => v
  | None => default
  end.

(** [elem.text]. *)
Definition text_of (doc : element) (r : ref) : option string :=
  match deref doc r with
  | Some e => etext e
  | None => None
  end.

Fixpoint update_nth {A : Type} (i : nat) (f : A -> A) (l : list A) : list A :=
  match l with
  | [] => []
  | a :: l' =>
      match i with
      | O => f a :: l'
      | S i' => a :: update_nth i' f l'
      end
  end.

(** [elem.text = v] for the element referenced by [r]. *)
Fixpoint set_text (doc : element) (r : ref) (v : option string) : element :=
  match r with
  | [] => Element (etag doc) (eattrib doc) v (echildren doc)
  | i :: r' =>
      Element (etag doc) (eattrib doc) (etext doc)
              (update_nth i (fun c => set_text c r' v) (echildren doc))
  end.

(** Tag names used by the script. *)
Definition rootfile_tag : string :=
  "{urn:oasis:names:tc:opendocument:xmlns:container}rootfile".
Definition manifest_tag : string := "{http://www.idpf.org/2007/opf}manifest".
Definition item_tag : string := "{http://www.idpf.org/2007/opf}item".
Definition metadata_tag : string := "{http://www.idpf.org/2007/opf}metadata".
Definition language_tag : string := "{http://purl.org/dc/elements/1.1/}language".
Definition title_tag : string := "{http://purl.org/dc/elements/1.1/}title".

(** ** Writing a tree and reading it back

    [ElementTree.write] escapes [&], [<] and [>] in a text and writes every
    other character as it is; an element without text and without children
    is written as an empty-element tag.  The parser rejects the characters
    that XML 1.0 does not allow, reports no text for an element written
    with an empty text, and turns the line ends CR LF and CR into LF. *)

(** The characters of XML 1.0 among the first 256: tab, line feed,
    carriage return and everything from the space on. *)
Definition xml_char (c : ascii) : bool :=
  let n := nat_of_ascii c in
  Nat.eqb n 9 || Nat.eqb n 10 || Nat.eqb n 13 || Nat.leb 32 n.

Fixpoint xml_chars (s : string) : bool :=
  match s with
  | EmptyString => true
  | String c rest => xml_char c && xml_chars rest
  end.

(** A text that can be written and parsed again. *)
Definition legal_text (x : option string) : bool :=
  match x with
  | Some s => xml_chars s
  | None => true
  end.

Definition CR : ascii := ascii_of_nat 13.
Definition LF : ascii := ascii_of_nat 10.

(** Line-end normalisation of the parser. *)
Fixpoint norm_eol (s : string) : string :=
  match s with
  | EmptyString => EmptyString
  | String c rest =>
      if Ascii.eqb c CR then
        String LF (match rest with
                   | String c2 rest2 =>
                       if Ascii.eqb c2 LF then norm_eol rest2
                       else norm_eol rest
                   | EmptyString => EmptyString
                   end)
      else String c (norm_eol rest)
  end.

(** A string without carriage return. *)
Fixpoint no_cr (s : string) : bool :=
  match s with
  | EmptyString => true
  | String c rest => negb (Ascii.eqb c CR) && no_cr rest
  end.

(** A string that is read back as it was written. *)
Definition stable_string (s : string) : bool := xml_chars s && no_cr s.

(** The text read back for a text that was written. *)
Definition norm_text (x : option string) : option string :=
  match x with
  | Some s => if truthy s then Some (norm_eol s) else None
  | None => None
  end.

(** The same function applied to every text of a tree. *)
Fixpoint map_text (f : option string -> option string) (e : element)
  : element :=
  match e with
  | Element t a x cs => Element t a (f x) (map (map_text f) cs)
  end.

(** A test that holds of every text of a tree. *)
Fixpoint all_text (p : option string -> bool) (e : element) : bool :=
  match e with
  | Element _ _ x cs => p x && forallb (all_text p) cs
  end.

(** Parsing what [ElementTree.write] wrote for [doc]. *)
Definition reparse (doc : element) : result element :=
  if all_text legal_text doc then Ok (map_text norm_text doc)
  else Err ParseError.

(** ** The file system *)

(** Contents of a regular file. *)
Inductive fdata : Type :=
| Raw (bytes : string)       (* anything that is not well-formed XML *)
| Xml (doc : element)        (* a well-formed XML file that parses to doc *)
| Written (doc : element).   (* what ElementTree.write produces for doc *)

#[warnings="-register-all"]
Inductive node : Type :=
| File (data : fdata)
| Dir (entries : list (string * node)).

Record filesystem : Type := MkFs {
  root : node;               (* the tree below the root directory *)
  cwd : list string          (* the current directory, from the root *)
}.

(** Replace the value of the first binding of [k]. *)
Fixpoint replace {A : Type} (k : string) (v : A) (l : list (string * A))
  : list (string * A) :=
  match l with
  | [] => []
  | (k', v') :: l' =>
      if String.eqb k k' then (k', v) :: l' else (k', v') :: replace k v l'
  end.

(** Descent along a list of plain names. *)
Fixpoint lookup (t : node) (c : list string) : option node :=
  match c with
  | [] => Some t
  | x :: q =>
      match t with
      | Dir es =>
          match assoc x es with
          | Some ch => lookup ch q
          | None => None
          end
      | File _ => None
      end
  end.

(** One step of path resolution from the location [cur]. *)
Definition step (cur : list string) (x : string) : list string :=
  if String.eqb x ".." then removelast cur else cur ++ [x].

(** Resolution by the operating system: every component is looked up in
    an existing directory, and [..] moves to the parent. *)
Fixpoint realpath (t : node) (cur : list string) (ps : list string)
  : result (list string) :=
  match ps with
  | [] => Ok cur
  | x :: rest =>
      match lookup t cur with
      | Some (Dir _) => realpath t (step cur x) rest
      | Some (File _) => Err NotADirectoryError
      | None => Err (FileNotFoundError "")
      end
  end.

Definition start (fs : filesystem) (p : path) : list string :=
  if anchored p then [] else cwd fs.

Definition locate (fs : filesystem) (p : path) : option node :=
  match realpath (root fs) (start fs p) (parts p) with
  | Ok c => lookup (root fs) c
  | Err _ => None
  end.

(** [p.exists()]. *)
Definition exists_ (fs : filesystem) (p : path) : bool :=
  match locate fs p with
  | Some _ => true
  | None => false
  end.

(** [p.is_dir()]. *)
Definition is_dir (fs : filesystem) (p : path) : bool :=
  match locate fs p with
  | Some (Dir _) => true
  | _ => false
  end.

(** Put [new] at location [c]: replaces what is there, or adds a new last
    entry to an existing parent directory. *)
Fixpoint put (t : node) (c : list string) (new : node) : result node :=
  match c with
  | [] => Ok new
  | x :: q =>
      match t with
      | File _ => Err NotADirectoryError
      | Dir es =>
          match assoc x es with
          | Some ch => ch' <- put ch q new ;; Ok (Dir (replace x ch' es))
          | None =>
              match q with
              | [] => Ok (Dir (es ++ [(x, new)]))
              | _ :: _ => Err (FileNotFoundError "")
              end
          end
      end
  end.

(** [os.mkdir(p)]. *)
Definition os_mkdir (fs : filesystem) (p : path) : result filesystem :=
  c <- realpath (root fs) (start fs p) (parts p) ;;
  match lookup (root fs) c with
  | Some _ => Err FileExistsError
  | None => t <- put (root fs) c (Dir []) ;; Ok (MkFs t (cwd fs))
  end.

(** [p.mkdir(parents=False, exist_ok=True)]. *)
Definition mkdir_exist_ok (fs : filesystem) (p : path) : result filesystem :=
  match os_mkdir fs p with
  | Ok fs' => Ok fs'
  | Err (FileNotFoundError m) => Err (FileNotFoundError m)
  | Err e => if is_dir fs p then Ok fs else Err e
  end.

(** [p.mkdir(parents=True, exist_ok=True)], by recursion on the reversed
    components of [p] as [pathlib] recurses on [p.parent]. *)
Fixpoint Path_mkdir_rev (fs : filesystem) (anch : bool) (rparts : list string)
  : result filesystem :=
  let self := MkPath anch (rev rparts) in
  match os_mkdir fs self with
  | Ok fs' => Ok fs'
  | Err (FileNotFoundError m) =>
      match rparts with
      | [] => Err (FileNotFoundError m)
      | _ :: rparent =>
          fs1 <- Path_mkdir_rev fs anch rparent ;;
          mkdir_exist_ok fs1 self
      end
  | Err e => if is_dir fs self then Ok fs else Err e
  end.

Definition Path_mkdir (fs : filesystem) (p : path) : result filesystem :=
  Path_mkdir_rev fs (anchored p) (rev (parts p)).

(** [open(p, "wb")] followed by writing [data]. *)
Definition write_file (fs : filesystem) (p : path) (data : fdata)
  : result filesystem :=
  c <- realpath (root fs) (start fs p) (parts p) ;;
  match lookup (root fs) c with
  | Some (Dir _) => Err IsADirectoryError
  | _ => t <- put (root fs) c (File data) ;; Ok (MkFs t (cwd fs))
  end.

(** The error of [open(p)] when nothing is found at [p]: the error of the
    resolution, for a path that leads through a regular file or a missing
    directory. *)
Definition open_error (fs : filesystem) (p : path) : exn :=
  match realpath (root fs) (start fs p) (parts p) with
  | Err e => e
  | Ok _ => FileNotFoundError ""
  end.

(** The parser on the contents of a file. *)
Definition parse_data (d : fdata) : result element :=
  match d with
  | Raw _ => Err ParseError
  | Xml e => Ok e
  | Written e => reparse e
  end.

(** [ET.parse(p).getroot()]. *)
Definition ET_parse (fs : filesystem) (p : path) : result element :=
  match locate fs p with
  | None => Err (open_error fs p)
  | Some (Dir _) => Err IsADirectoryError
  | Some (File d) => parse_data d
  end.

(** [tree.write(p, encoding='utf-8', xml_declaration=True)]: the file is
    replaced by the serialisation of the tree. *)
Definition ET_write (fs : filesystem) (p : path) (doc : element)
  : result filesystem :=
  write_file fs p (Written doc).

(** *** Normalised locations

    [zipfile] extracts to [os.path.normpath(os.path.join(dir, name))].  A
    normalised path is resolved without any physical [..] step beyond the
    current directory, so its location is computed lexically. *)

Definition abspath (fs : filesystem) (p : path) : list string :=
  fold_left step (parts p) (start fs p).

(** A chain of fresh empty directories. *)
Fixpoint chain (q : list string) : node :=
  match q with
  | [] => Dir []
  | y :: q' => Dir [(y, chain q')]
  end.

(** [os.makedirs(c, exist_ok=True)] at a normalised location. *)
Fixpoint makedirs_node (t : node) (c : list string) : result node :=
  match c with
  | [] =>
      match t with
      | Dir _ => Ok t
      | File _ => Err FileExistsError
      end
  | x :: q =>
      match t with
      | File _ => Err NotADirectoryError
      | Dir es =>
          match assoc x es with
          | Some ch => ch' <- makedirs_node ch q ;; Ok (Dir (replace x ch' es))
          | None => Ok (Dir (es ++ [(x, chain q)]))
          end
      end
  end.

(** [os.walk(top)] below a directory node: one triple (root, dirs, files)
    per directory, top-down, in listing order. *)
Definition dirnames (es : list (string * node)) : list string :=
  map fst (filter (fun e => match snd e with Dir _ => true | _ => false end) es).

Definition filenames (es : list (string * node)) : list string :=
  map fst (filter (fun e => match snd e with File _ => true | _ => false end) es).

Fixpoint walk_node (top : path) (t : node)
  : list (path * list string * list string) :=
  match t with
  | File _ => []
  | Dir es =>
      (top, dirnames es, filenames es)
      :: flat_map (fun e => walk_node (child top (fst e)) (snd e)) es
  end.

(** [os.walk(top)]: errors of the directory scan are ignored, so a missing
    top or a top that is a regular file yields nothing. *)
Definition os_walk (fs : filesystem) (top : path)
  : list (path * list string * list string) :=
  match locate fs top with
  | Some t => walk_node top t
  | None => []
  end.

(** ** ZIP archives ([zipfile]) *)

Inductive compression : Type := ZIP_STORED | ZIP_DEFLATED.

Record ZipInfo : Type := MkZipInfo {
  filename : list string;        (* the name, split at its slashes *)
  compress_type : compression;
  zdata : fdata                  (* the uncompressed contents *)
}.

Definition archive : Type := list ZipInfo.

(** [member.is_dir()]: the name ends with a slash. *)
Definition zi_is_dir (z : ZipInfo) : bool :=
  match rev (filename z) with
  | last_part :: _ :: _ => String.eqb last_part ""
  | _ => false
  end.

(** [zf.getinfo(name)]: the last entry recorded under that name. *)
Definition getinfo (zf : archive) (name : list string) : option ZipInfo :=
  List.find (fun z => list_eqb (filename z) name) (rev zf).

Definition exists_at (fs : filesystem) (c : list string) : bool :=
  match lookup (root fs) c with
  | Some _ => true
  | None => false
  end.

Definition isdir_at (fs : filesystem) (c : list string) : bool :=
  match lookup (root fs) c with
  | Some (Dir _) => true
  | _ => false
  end.

(** [zf._extract_member(member, targetpath)]. *)
Definition extract_member (fs : filesystem) (member : ZipInfo)
  (targetpath : path) : result filesystem :=
  let arcname :=
    filter (fun x => negb (mem_str x [""; "."; ".."])) (filename member) in
  match arcname, zi_is_dir member with
  | [], false => Err (ValueError "Empty filename.")
  | _, _ =>
      let target := abspath fs (MkPath (anchored targetpath)
                                       (parts targetpath ++ arcname)) in
      let upperdirs := removelast target in
      fs1 <- (if exists_at fs upperdirs then Ok fs
              else t <- makedirs_node (root fs) upperdirs ;;
                   Ok (MkFs t (cwd fs))) ;;
      if zi_is_dir member then
        if isdir_at fs1 target then Ok fs1
        else
          match lookup (root fs1) target with
          | Some _ => Err FileExistsError
          | None => t <- put (root fs1) target (Dir []) ;; Ok (MkFs t (cwd fs1))
          end
      else
        match lookup (root fs1) target with
        | Some (Dir _) => Err IsADirectoryError
        | _ => t <- put (root fs1) target (File (zdata member)) ;;
               Ok (MkFs t (cwd fs1))
        end
  end.

(** [zf.extractall(path)]: every name of the archive, in order, each
    resolved through [getinfo]. *)
Definition extractall (fs : filesystem) (zf : archive) (targetpath : path)
  : result filesystem :=
  foldM (fun fs name =>
           match getinfo zf name with
           | Some member => extract_member fs member targetpath
           | None => Err (ValueError "no such member")
           end)
        (map filename zf) fs.

(** [zf.write(file_path, arcname, compress_type)], appending to the archive
    under construction.  A directory is recorded as an empty stored entry
    whose name gets a trailing slash. *)
Definition zf_write (fs : filesystem) (zf : archive) (file_path : path)
  (arcname : list string) (ctype : compression) : result archive :=
  match locate fs file_path with
  | None => Err (FileNotFoundError "")
  | Some (Dir _) => Ok (zf ++ [MkZipInfo (arcname ++ [""]) ZIP_STORED (Raw "")])
  | Some (File d) => Ok (zf ++ [MkZipInfo arcname ctype d])
  end.

(** ** The script *)

(** The dictionary returned by [extract_epub]. *)
Record extract_info : Type := MkInfo {
  extract_dir : path;
  opf_path : string;
  opf_full_path : path
}.

(** [extract_epub(epub_path, output_dir)], lines 35-65; [zf] is the archive
    read from [epub_path]. *)
Definition extract_epub (fs : filesystem) (zf : archive) (output_dir : path)
  : result (filesystem * extract_info) :=
  let output_path := output_dir in
  fs <- Path_mkdir fs output_path ;;
  fs <- extractall fs zf output_dir ;;
  let container_path := child (child output_path "META-INF") "container.xml" in
  if negb (exists_ fs container_path) then
    Err (FileNotFoundError "Invalid EPUB: container.xml not found")
  else
    root <- ET_parse fs container_path ;;
    match find root [] rootfile_tag with
    | None => Err (ValueError "No rootfile in container.xml")
    | Some rootfile =>
        match get root rootfile "full-path" with
        | None => Err TypeError
        | Some opf_path =>
            Ok (fs, MkInfo output_path opf_path (output_path // Path opf_path))
        end
    end.

(** One element of the list returned by [list_content_files]. *)
Record content_file : Type := MkContent {
  cf_id : string;
  cf_href : string;
  cf_path : path;
  cf_media_type : string
}.

(** [list_content_files(epub_path)], lines 68-103; [temp_dir] is the fresh
    directory that [tempfile.TemporaryDirectory()] creates.  The directory
    is removed when the function exits, so only the returned list
    remains. *)
Definition list_content_files (fs : filesystem) (zf : archive)
  (temp_dir : path) : result (list content_file) :=
  fs <- os_mkdir fs temp_dir ;;
  '(fs, info) <- extract_epub fs zf temp_dir ;;
  let opf_full_path := opf_full_path info in
  let opf_dir := parent opf_full_path in
  root <- ET_parse fs opf_full_path ;;
  let content_files := [] in
  match find root [] manifest_tag with
  | Some manifest =>
      Ok (fold_left
            (fun content_files item =>
               let media_type := get_default root item "media-type" "" in
               let href := get_default root item "href" "" in
               let item_id := get_default root item "id" "" in
               if mem_str media_type ["application/xhtml+xml"; "text/html"] then
                 let full_path := opf_dir // Path href in
                 if exists_ fs full_path then
                   content_files ++ [MkContent item_id href full_path media_type]
                 else content_files
               else content_files)
            (findall root manifest item_tag) content_files)
  | None => Ok content_files
  end.

(** [get_content_files(extract_dir, opf_path)], lines 106-127. *)
Definition get_content_files (fs : filesystem) (extract_dir : path)
  (opf_path : string) : result (list path) :=
  let opf_full_path := extract_dir // Path opf_path in
  let opf_dir := parent opf_full_path in
  root <- ET_parse fs opf_full_path ;;
  let content_files := [] in
  match find root [] manifest_tag with
  | Some manifest =>
      Ok (fold_left
            (fun content_files item =>
               let media_type := get_default root item "media-type" "" in
               let href := get_default root item "href" "" in
               if mem_str media_type ["application/xhtml+xml"; "text/html"] then
                 let full_path := opf_dir // Path href in
                 if exists_ fs full_path then content_files ++ [full_path]
                 else content_files
               else content_files)
            (findall root manifest item_tag) content_files)
  | None => Ok content_files
  end.

(** The in-memory part of [update_metadata], lines 137-149: the edits made
    to the parsed tree before it is written back. *)
Definition update_metadata_tree (root : element) (lang_code : option string)
  (title_suffix : string) : element :=
  match find root [] metadata_tag with
  | Some metadata =>
      (* Update language *)
      let root :=
        match find root metadata language_tag with
        | Some lang => set_text root lang lang_code
        | None => root
        end in
      (* Update title if suffix provided *)
      if truthy title_suffix then
        match find root metadata title_tag with
        | Some title =>
            match text_of root title with
            | Some title_text =>
                if truthy title_text then
                  if negb (str_in title_suffix title_text) then
                    set_text root title
                             (Some (title_text ++ " " ++ title_suffix)%string)
                  else root
                else root
            | None => root
            end
        | None => root
        end
      else root
  | None => root
  end.

(** [update_metadata(extract_dir, opf_path, lang_code, title_suffix)],
    lines 130-152.  The tree is written back on every call. *)
Definition update_metadata (fs : filesystem) (extract_dir : path)
  (opf_path : string) (lang_code : option string) (title_suffix : string)
  : result filesystem :=
  let opf_full_path := extract_dir // Path opf_path in
  root <- ET_parse fs opf_full_path ;;
  let root := update_metadata_tree root lang_code title_suffix in
  ET_write fs opf_full_path root.

(** The [update-meta] branch of [main], lines 228-235: the editor is only
    invoked when a language code was given on the command line. *)
Definition main_update_meta (fs : filesystem) (extract_dir : path)
  (opf_path : string) (lang : option string) (title_suffix : option string)
  : result filesystem :=
  if truthy_opt lang then
    update_metadata fs extract_dir opf_path lang
      (match title_suffix with
       | Some s => if truthy s then s else ""
       | None => ""
       end)
  else Ok fs.

(** [pack_epub(source_dir, output_path)], lines 155-175.  The result is the
    archive written to [output_path], which is assumed to lie outside the
    source tree.  [source_dir] is the path that [Path(source_dir)] gives
    for a string other than the empty one, for which [os.walk] walks the
    same directory as that path names. *)
Definition pack_epub (fs : filesystem) (source_dir : path) : result archive :=
  let source_path := source_dir in
  let zf := [] in
  (* mimetype must be first and uncompressed *)
  let mimetype_path := child source_path "mimetype" in
  zf <- (if exists_ fs mimetype_path then
           zf_write fs zf mimetype_path ["mimetype"] ZIP_STORED
         else Ok zf) ;;
  (* Add all other files *)
  foldM (fun zf '(root, dirs, files) =>
           foldM (fun zf file =>
                    if String.eqb file "mimetype" then Ok zf
                    else
                      let file_path := child root file in
                      arcname <- relative_to file_path source_path ;;
                      zf_write fs zf file_path (parts arcname) ZIP_DEFLATED)
                 files zf)
        (os_walk fs source_dir) zf.

(** ** Observations used in the statements *)

(** The title of a package document: the text of the first [title] field
    of its first [metadata] element. *)
Definition title_of (doc : element) : option string :=
  match find doc [] metadata_tag with
  | Some metadata =>
      match find doc metadata title_tag with
      | Some title => text_of doc title
      | None => None
      end
  | None => None
  end.

(** The language of a package document, likewise. *)
Definition language_of (doc : element) : option string :=
  match find doc [] metadata_tag with
  | Some metadata =>
      match find doc metadata language_tag with
      | Some lang => text_of doc lang
      | None => None
      end
  | None => None
  end.

(** The title policy in the spec's words: a space and the suffix are
    appended to a non-empty title when the suffix is non-empty and not
    already a substring of the title. *)
Definition append_suffix (suffix : string) (title : option string)
  : option string :=
  match title with
  | Some t =>
      if truthy suffix && truthy t && negb (str_in suffix t)
      then Some (t ++ " " ++ suffix)%string
      else Some t
  | None => None
  end.

(** The language edit of [update_metadata] alone, for a document whose
    [metadata] element is [pm]. *)
Definition lang_step (root : element) (pm : ref) (lang_code : option string)
  : element :=
  match find root pm language_tag with
  | Some lang => set_text root lang lang_code
  | None => root
  end.


(** What a location holds, without its contents. *)
Inductive kind : Type := Absent | IsFile | IsDir.

Definition kind_of (o : option node) : kind :=
  match o with
  | None => Absent
  | Some (File _) => IsFile
  | Some (Dir _) => IsDir
  end.

(** The title of the package document stored at [p]. *)
Definition doc_title (fs : filesystem) (p : path) : result (option string) :=
  rmap title_of (ET_parse fs p).

(** ** Sample data *)

Definition sample_container : element :=
  Element "{urn:oasis:names:tc:opendocument:xmlns:container}container"
    [("version", "1.0")] None
    [Element "{urn:oasis:names:tc:opendocument:xmlns:container}rootfiles"
       [] None
       [Element rootfile_tag
          [("full-path", "OEBPS/content.opf");
           ("media-type", "application/oebps-package+xml")] None []]].

Definition sample_opf : element :=
  Element "{http://www.idpf.org/2007/opf}package" [("version", "3.0")] None
    [Element metadata_tag [] None
       [Element title_tag [] (Some "My Book") [];
        Element language_tag [] (Some "en") []];
     Element manifest_tag [] None
       [Element item_tag
          [("id", "ch1"); ("href", "chapter1.xhtml");
           ("media-type", "application/xhtml+xml")] None [];
        Element item_tag
          [("id", "cover"); ("href", "cover.jpg");
           ("media-type", "image/jpeg")] None []]].

Definition sample_epub : archive :=
  [MkZipInfo ["mimetype"] ZIP_STORED (Raw "application/epub+zip");
   MkZipInfo ["META-INF"; "container.xml"] ZIP_DEFLATED (Xml sample_container);
   MkZipInfo ["OEBPS"; "content.opf"] ZIP_DEFLATED (Xml sample_opf);
   MkZipInfo ["OEBPS"; "chapter1.xhtml"] ZIP_DEFLATED (Raw "<html/>");
   MkZipInfo ["OEBPS"; "cover.jpg"] ZIP_DEFLATED (Raw "JFIF")].

(** A machine with an empty home directory, which is the current
    directory, and an empty [/tmp]. *)
Definition sample_fs : filesystem :=
  MkFs (Dir [("home", Dir [("u", Dir [])]); ("tmp", Dir [])]) ["home"; "u"].

(** The same machine after [sample_epub] was unpacked into [work]. *)
Definition sample_work : filesystem :=
  MkFs (Dir [("home",
              Dir [("u",
                    Dir [("work",
                          Dir [("mimetype", File (Raw "application/epub+zip"));
                               ("META-INF",
                                Dir [("container.xml",
                                      File (Xml sample_container))]);
                               ("OEBPS",
                                Dir [("content.opf", File (Xml sample_opf));
                                     ("chapter1.xhtml", File (Raw "<html/>"));
                                     ("cover.jpg", File (Raw "JFIF"))])])])]);
             ("tmp", Dir [])])
       ["home"; "u"].

(** A directory holding a package document without [metadata]. *)
Definition sample_bare : filesystem :=
  MkFs (Dir [("content.opf",
              File (Xml (Element "{http://www.idpf.org/2007/opf}package"
                                 [] None [])))])
       [].

(** ** The Manifest Reader in the spec's words

    One entry per [item] child of the [manifest], in document order, kept
    when its media type is one of the two recognized values and its [href],
    resolved against the package document's directory, exists. *)

Definition recognized (media_type : string) : bool :=
  mem_str media_type ["application/xhtml+xml"; "text/html"].

Definition manifest_items (doc : element) : list ref :=
  match find doc [] manifest_tag with
  | Some manifest => findall doc manifest item_tag
  | None => []
  end.

Definition item_path (opf_dir : path) (doc : element) (item : ref) : path :=
  opf_dir // Path (get_default doc item "href" "").

Definition item_kept (fs : filesystem) (opf_dir : path) (doc : element)
  (item : ref) : bool :=
  recognized (get_default doc item "media-type" "")
  && exists_ fs (item_path opf_dir doc item).

Definition item_entry (opf_dir : path) (doc : element) (item : ref)
  : content_file :=
  MkContent (get_default doc item "id" "")
            (get_default doc item "href" "")
            (item_path opf_dir doc item)
            (get_default doc item "media-type" "").

Definition content_entries (fs : filesystem) (opf_dir : path) (doc : element)
  : list content_file :=
  map (item_entry opf_dir doc) (filter (item_kept fs opf_dir doc)
                                       (manifest_items doc)).

(** A source directory [src] with a top-level [mimetype], a chapter, and a
    second file named [mimetype] in a subdirectory. *)
Definition sample_nested : filesystem :=
  MkFs (Dir [("src",
              Dir [("mimetype", File (Raw "application/epub+zip"));
                   ("OEBPS",
                    Dir [("ch1.xhtml", File (Raw "<html/>"));
                         ("mimetype", File (Raw "text/plain"))])])])
       [].

(** ** Directory trees as the operating system keeps them

    In a directory of a real file system the names are distinct and none
    of them is empty, [.], [..] or contains a slash. *)

Fixpoint distinct (l : list string) : bool :=
  match l with
  | [] => true
  | x :: l' => negb (mem_str x l') && distinct l'
  end.

Fixpoint wf_node (t : node) : bool :=
  match t with
  | File _ => true
  | Dir es =>
      distinct (map fst es)
      && forallb (fun e => valid_name (fst e) && wf_node (snd e)) es
  end.

(** ** Archives as sets of entries *)

(** Name and contents of every entry. *)
Definition entries (zf : archive) : list (list string * fdata) :=
  map (fun z => (filename z, zdata z)) zf.

(** The name of a regular file that extraction keeps as it is: at least
    one component, every component a valid name. *)
Definition plain_name (n : list string) : bool :=
  match n with
  | [] => false
  | _ :: _ => forallb valid_name n
  end.

(** [sample_epub] with the directory entry [META-INF/] that archivers
    commonly add. *)
Definition sample_epub_dirs : archive :=
  [MkZipInfo ["mimetype"] ZIP_STORED (Raw "application/epub+zip");
   MkZipInfo ["META-INF"; ""] ZIP_STORED (Raw "");
   MkZipInfo ["META-INF"; "container.xml"] ZIP_DEFLATED (Xml sample_container);
   MkZipInfo ["OEBPS"; "content.opf"] ZIP_DEFLATED (Xml sample_opf);
   MkZipInfo ["OEBPS"; "chapter1.xhtml"] ZIP_DEFLATED (Raw "<html/>");
   MkZipInfo ["OEBPS"; "cover.jpg"] ZIP_DEFLATED (Raw "JFIF")].

(** What the walk of [pack_epub] writes for the name [file] of the
    directory [rel] (relative to the source directory) whose listing is
    [es]. *)
Definition walk_entry (rel : list string) (es : list (string * node))
  (file : string) : list ZipInfo :=
  if String.eqb file "mimetype" then []
  else match assoc file es with
       | Some (File d) => [MkZipInfo (rel ++ [file]) ZIP_DEFLATED d]
       | _ => []
       end.

(** What [pack_epub] writes before the walk. *)
Definition first_entry (s : node) : list ZipInfo :=
  match lookup s ["mimetype"] with
  | Some (File d) => [MkZipInfo ["mimetype"] ZIP_STORED d]
  | Some (Dir _) => [MkZipInfo ["mimetype"; ""] ZIP_STORED (Raw "")]
  | None => []
  end.

(** The name [mimetype] is used for the top-level file only: no other
    file is called [mimetype] and no top-level directory is. *)
Definition mimetype_top (n : list string) : bool :=
  list_eqb n ["mimetype"]
  || negb (String.eqb (hd "" n) "mimetype"
           || String.eqb (last n "") "mimetype").

(** The tree [s] of an extraction directory after the entries [P] were
    extracted into it: a well-formed tree whose files are the entries of
    [P], without a top-level directory called [mimetype]. *)
Definition holds (s : node) (P : archive) : Prop :=
  wf_node s = true
  /\ (forall m d, lookup s m = Some (File d) <-> In (m, d) (entries P))
  /\ (forall es, lookup s ["mimetype"] <> Some (Dir es)).

(** The location at which [_extract_member] puts [member] when the archive
    is extracted to [targetpath]. *)
Definition target_of (fs : filesystem) (member : ZipInfo) (targetpath : path)
  : list string :=
  abspath fs (MkPath (anchored targetpath)
                     (parts targetpath
                      ++ filter (fun x => negb (mem_str x [""; "."; ".."]))
                                (filename member))).

(** A title suffix with a carriage return between two letters, and a
    language code that is one control character. *)
Definition suffix_cr : string :=
  String "a"%char (String CR (String "b"%char EmptyString)).

Definition code_ctrl : string := String (ascii_of_nat 1) EmptyString.


(** * Properties *)

(** ** Documents: references and in-place updates *)

(** Induction on a document, with the hypothesis for every child. *)
Lemma element_ind' (P : element -> Prop) :
  (forall t a x cs, Forall P cs -> P (Element t a x cs)) ->
  forall e, P e.
Proof.
  intros H. fix IH 1. intros [t a x cs]. apply H.
  induction cs as [|c cs IHcs]; constructor; [apply IH | exact IHcs].
Qed.

Lemma etag_set_text e r v : etag (set_text e r v) = etag e.
Proof. destruct r; reflexivity. Qed.

Lemma nth_error_update_nth (A : Type) (f : A -> A) l i j :
  nth_error (update_nth i f l) j =
  if Nat.eqb i j then option_map f (nth_error l j) else nth_error l j.
Proof.
  revert i j; induction l as [|a l IH]; intros [|i] [|j]; simpl; auto.
  destruct (Nat.eqb _ _); reflexivity.
Qed.

Lemma find_first_ext rec1 rec2 tag cs1 cs2 i :
  Forall2 (fun c1 c2 => etag c1 = etag c2 /\ rec1 c1 = rec2 c2) cs1 cs2 ->
  find_first rec1 tag cs1 i = find_first rec2 tag cs2 i.
Proof.
  intros H; revert i; induction H as [|c1 c2 l1 l2 [Ht Hr] _ IH]; intros i.
  - reflexivity.
  - simpl. rewrite Ht, Hr, IH. reflexivity.
Qed.

Lemma Forall2_refl_on (A : Type) (R : A -> A -> Prop) l :
  Forall (fun a => R a a) l -> Forall2 R l l.
Proof. induction 1; constructor; auto. Qed.

(** Setting a text leaves every tag where it is. *)
Lemma find_desc_set_text tag e : forall r v,
  find_desc tag (set_text e r v) = find_desc tag e.
Proof.
  induction e as [t a x cs IH] using element_ind'; intros [|i r] v.
  - reflexivity.
  - simpl. apply find_first_ext.
    clear t a x. revert i; induction IH as [|c l Hc Hl IHl]; intros i.
    + destruct i; constructor.
    + destruct i; simpl; constructor.
      * split; [apply etag_set_text | apply Hc].
      * apply Forall2_refl_on. apply Forall_forall. auto.
      * auto.
      * apply IHl.
Qed.

(** What a reference points to after an update somewhere in the document:
    an element with the same attributes and the same tags below it. *)
Lemma deref_set_text p : forall e r v,
  match deref e p with
  | Some x =>
      exists x', deref (set_text e r v) p = Some x'
                 /\ etag x' = etag x
                 /\ eattrib x' = eattrib x
                 /\ forall tag, find_desc tag x' = find_desc tag x
  | None => deref (set_text e r v) p = None
  end.
Proof.
  induction p as [|i p IH]; intros e r v.
  - simpl. exists (set_text e r v). split; [reflexivity|].
    split; [apply etag_set_text|]. split.
    + destruct r; reflexivity.
    + intros tag. apply find_desc_set_text.
  - destruct r as [|j r].
    + simpl. destruct (nth_error (echildren e) i) as [c|]; [|reflexivity].
      destruct (deref c p) as [x|]; [|reflexivity].
      exists x. auto.
    + simpl. rewrite nth_error_update_nth.
      destruct (Nat.eqb j i).
      * destruct (nth_error (echildren e) i) as [c|]; simpl; [|reflexivity].
        apply IH.
      * destruct (nth_error (echildren e) i) as [c|]; [|reflexivity].
        destruct (deref c p) as [x|]; [|reflexivity].
        exists x. auto.
Qed.

Lemma find_set_text e r v p tag :
  find (set_text e r v) p tag = find e p tag.
Proof.
  unfold find. pose proof (deref_set_text p e r v) as H.
  destruct (deref e p) as [x|].
  - destruct H as (x' & -> & _ & _ & Hf). rewrite Hf. reflexivity.
  - rewrite H. reflexivity.
Qed.

Lemma get_set_text e r v p key :
  get (set_text e r v) p key = get e p key.
Proof.
  unfold get. pose proof (deref_set_text p e r v) as H.
  destruct (deref e p) as [x|].
  - destruct H as (x' & -> & _ & Ha & _). rewrite Ha. reflexivity.
  - rewrite H. reflexivity.
Qed.

Lemma text_of_set_text_same r : forall e v,
  deref e r <> None -> text_of (set_text e r v) r = v.
Proof.
  unfold text_of. induction r as [|i r IH]; intros e v H.
  - reflexivity.
  - simpl in *. rewrite nth_error_update_nth, Nat.eqb_refl.
    destruct (nth_error (echildren e) i) as [c|]; simpl.
    + apply IH, H.
    + contradiction.
Qed.

Lemma text_of_set_text_other r : forall e v p,
  p <> r -> text_of (set_text e r v) p = text_of e p.
Proof.
  unfold text_of. induction r as [|i r IH]; intros e v [|j p] H.
  - contradiction.
  - reflexivity.
  - reflexivity.
  - simpl. rewrite nth_error_update_nth.
    destruct (Nat.eqb_spec i j) as [->|Hij].
    + destruct (nth_error (echildren e) j) as [c|]; simpl; [|reflexivity].
      apply IH. congruence.
    + reflexivity.
Qed.

Lemma update_nth_twice (A : Type) (f g : A -> A) l : forall i,
  update_nth i f (update_nth i g l) = update_nth i (fun a => f (g a)) l.
Proof. induction l; intros [|i]; simpl; f_equal; auto. Qed.

Lemma update_nth_comm (A : Type) (f g : A -> A) l : forall i j,
  i <> j ->
  update_nth i f (update_nth j g l) = update_nth j g (update_nth i f l).
Proof.
  induction l; intros [|i] [|j] H; simpl; f_equal; auto; contradiction.
Qed.

Lemma update_nth_ext (A : Type) (f g : A -> A) l : forall i,
  (forall a, f a = g a) -> update_nth i f l = update_nth i g l.
Proof. induction l; intros [|i] H; simpl; f_equal; auto. Qed.

Lemma set_text_twice r : forall e v w,
  set_text (set_text e r v) r w = set_text e r w.
Proof.
  induction r as [|i r IH]; intros e v w; simpl.
  - reflexivity.
  - rewrite update_nth_twice. f_equal. apply update_nth_ext. intros a. apply IH.
Qed.

(** Updates through references to two distinct elements commute, also when
    one element lies inside the other. *)
Lemma set_text_comm r : forall e v p w,
  r <> p ->
  set_text (set_text e r v) p w = set_text (set_text e p w) r v.
Proof.
  induction r as [|i r IH]; intros e v [|j p] w H; simpl.
  - contradiction.
  - reflexivity.
  - reflexivity.
  - f_equal. destruct (Nat.eq_dec i j) as [->|Hij].
    + rewrite !update_nth_twice. apply update_nth_ext. intros a.
      apply IH. congruence.
    + apply update_nth_comm. auto.
Qed.

Lemma find_first_sound rec tag cs : forall i q,
  (forall c r, In c cs -> rec c = Some r ->
               exists x, deref c r = Some x /\ etag x = tag) ->
  find_first rec tag cs i = Some q ->
  exists k r c, q = (i + k) :: r /\ nth_error cs k = Some c
                /\ exists x, deref c r = Some x /\ etag x = tag.
Proof.
  induction cs as [|c cs IH]; intros i q Hrec H; simpl in H.
  - discriminate.
  - destruct (String.eqb_spec (etag c) tag) as [Ht|Ht].
    + inversion H; subst q. exists 0, [], c. rewrite Nat.add_0_r.
      repeat split. exists c. auto.
    + destruct (rec c) as [r|] eqn:Er.
      * inversion H; subst q. exists 0, r, c. rewrite Nat.add_0_r.
        repeat split. apply (Hrec c r); simpl; auto.
      * apply IH in H.
        -- destruct H as (k & r & c' & -> & Hn & Hx).
           exists (S k), r, c'. rewrite Nat.add_succ_r. auto.
        -- intros c' r' Hin. apply Hrec. simpl; auto.
Qed.

Lemma find_desc_sound tag e : forall q,
  find_desc tag e = Some q ->
  exists x, deref e q = Some x /\ etag x = tag.
Proof.
  induction e as [t a x cs IH] using element_ind'; intros q H.
  simpl in H. apply find_first_sound in H.
  - destruct H as (k & r & c & -> & Hn & Hx). simpl. rewrite Hn. exact Hx.
  - intros c r Hin. rewrite Forall_forall in IH. apply IH, Hin.
Qed.

Lemma deref_app p : forall e q,
  deref e (p ++ q) = match deref e p with
                     | Some x => deref x q
                     | None => None
                     end.
Proof.
  induction p as [|i p IH]; intros e q; simpl.
  - reflexivity.
  - destruct (nth_error (echildren e) i); auto.
Qed.

(** An element returned by [find] exists and carries the tag asked for. *)
Lemma find_sound doc r tag q :
  find doc r tag = Some q ->
  exists x, deref doc q = Some x /\ etag x = tag.
Proof.
  unfold find. destruct (deref doc r) as [e|] eqn:E; [|discriminate].
  destruct (find_desc tag e) as [q'|] eqn:F; [|discriminate].
  intros H; inversion H; subst q. rewrite deref_app, E.
  apply find_desc_sound, F.
Qed.

Lemma find_distinct doc r1 r2 tag1 tag2 q1 q2 :
  find doc r1 tag1 = Some q1 -> find doc r2 tag2 = Some q2 ->
  tag1 <> tag2 -> q1 <> q2.
Proof.
  intros H1 H2 Hne ->. apply find_sound in H1, H2.
  destruct H1 as (x1 & E1 & T1), H2 as (x2 & E2 & T2). congruence.
Qed.

(** ** Strings *)

Lemma prefix_refl s : String.prefix s s = true.
Proof.
  induction s as [|c s IH]; simpl; trivial.
  destruct (Ascii.ascii_dec c c); [exact IH | contradiction].
Qed.

Lemma str_in_unfold needle haystack :
  str_in needle haystack =
  String.prefix needle haystack
  || match haystack with
     | EmptyString => false
     | String _ rest => str_in needle rest
     end.
Proof. destruct haystack; reflexivity. Qed.

Lemma str_in_refl s : str_in s s = true.
Proof. rewrite str_in_unfold, prefix_refl. reflexivity. Qed.

Lemma str_in_app_r s t : str_in s (t ++ s)%string = true.
Proof.
  induction t as [|c t IH].
  - apply str_in_refl.
  - change (String c t ++ s)%string with (String c (t ++ s)%string).
    rewrite str_in_unfold, IH. apply orb_true_r.
Qed.

(** Once appended, the suffix is found in the title. *)
Lemma str_in_appended s t : str_in s (t ++ " " ++ s)%string = true.
Proof.
  replace (t ++ " " ++ s)%string with ((t ++ " ") ++ s)%string.
  - apply str_in_app_r.
  - induction t as [|c t IH]; simpl; [reflexivity | rewrite IH; reflexivity].
Qed.

(** ** The metadata edits on the parsed tree *)

Lemma tags_distinct : language_tag <> title_tag.
Proof. discriminate. Qed.

(** The edits only set texts, so every later [find] gives what it gave on
    the original document. *)
Lemma find_update_metadata_tree root lang_code title_suffix r tag :
  find (update_metadata_tree root lang_code title_suffix) r tag
  = find root r tag.
Proof.
  unfold update_metadata_tree.
  destruct (find root [] metadata_tag) as [pm|]; [|reflexivity].
  set (root1 := match find root pm language_tag with
                | Some lang => set_text root lang lang_code
                | None => root
                end).
  assert (H1 : forall r tag, find root1 r tag = find root r tag).
  { intros r0 tag0. unfold root1.
    destruct (find root pm language_tag); [apply find_set_text | reflexivity]. }
  destruct (truthy title_suffix); [|apply H1].
  destruct (find root1 pm title_tag) as [pt|]; [|apply H1].
  destruct (text_of root1 pt) as [t|]; [|apply H1].
  destruct (truthy t); [|apply H1].
  destruct (negb (str_in title_suffix t)); [|apply H1].
  rewrite find_set_text. apply H1.
Qed.


Lemma find_lang_step root pm lang_code r tag :
  find (lang_step root pm lang_code) r tag = find root r tag.
Proof.
  unfold lang_step.
  destruct (find root pm language_tag); [apply find_set_text | reflexivity].
Qed.

Lemma text_of_lang_step_title root pm pm' lang_code pt :
  find root pm' title_tag = Some pt ->
  text_of (lang_step root pm lang_code) pt = text_of root pt.
Proof.
  intros T. unfold lang_step.
  destruct (find root pm language_tag) as [pl|] eqn:L; [|reflexivity].
  apply text_of_set_text_other.
  intros ->. eapply find_distinct; [exact L | exact T | | reflexivity].
  apply tags_distinct.
Qed.

(** The edits in closed form: the decisions are all taken on the original
    document. *)
Lemma update_metadata_tree_eq root lang_code title_suffix pm :
  find root [] metadata_tag = Some pm ->
  update_metadata_tree root lang_code title_suffix =
  match find root pm title_tag with
  | Some pt =>
      match text_of root pt with
      | Some t =>
          if truthy title_suffix && truthy t && negb (str_in title_suffix t)
          then set_text (lang_step root pm lang_code) pt
                        (Some (t ++ " " ++ title_suffix)%string)
          else lang_step root pm lang_code
      | None => lang_step root pm lang_code
      end
  | None => lang_step root pm lang_code
  end.
Proof.
  intros M. unfold update_metadata_tree. rewrite M.
  fold (lang_step root pm lang_code). rewrite find_lang_step.
  destruct (find root pm title_tag) as [pt|] eqn:T.
  - rewrite (text_of_lang_step_title _ pm _ lang_code _ T).
    destruct (truthy title_suffix); simpl.
    + destruct (text_of root pt) as [t|]; [|reflexivity].
      destruct (truthy t); simpl; [|reflexivity].
      destruct (str_in title_suffix t); reflexivity.
    + destruct (text_of root pt) as [t|]; reflexivity.
  - destruct (truthy title_suffix); reflexivity.
Qed.

Lemma find_deref doc r tag q :
  find doc r tag = Some q -> deref doc q <> None.
Proof. intros H. apply find_sound in H. destruct H as (x & -> & _). discriminate. Qed.

Lemma title_of_update_metadata_tree root lang_code title_suffix :
  title_of (update_metadata_tree root lang_code title_suffix)
  = append_suffix title_suffix (title_of root).
Proof.
  unfold title_of. rewrite !find_update_metadata_tree.
  destruct (find root [] metadata_tag) as [pm|] eqn:M; [|reflexivity].
  rewrite find_update_metadata_tree, (update_metadata_tree_eq _ lang_code title_suffix _ M).
  destruct (find root pm title_tag) as [pt|] eqn:T; [|reflexivity].
  pose proof (text_of_lang_step_title _ pm _ lang_code _ T) as H.
  unfold append_suffix.
  destruct (text_of root pt) as [t|]; [|exact H].
  destruct (truthy title_suffix && truthy t && negb (str_in title_suffix t)).
  - apply text_of_set_text_same.
    apply find_deref with (r := pm) (tag := title_tag).
    rewrite find_lang_step. exact T.
  - exact H.
Qed.

Lemma language_of_update_metadata_tree root lang_code title_suffix pm pl :
  find root [] metadata_tag = Some pm ->
  find root pm language_tag = Some pl ->
  text_of (update_metadata_tree root lang_code title_suffix) pl = lang_code.
Proof.
  intros M L. rewrite (update_metadata_tree_eq _ lang_code title_suffix _ M).
  assert (H : text_of (lang_step root pm lang_code) pl = lang_code).
  { unfold lang_step. rewrite L. apply text_of_set_text_same.
    eapply find_deref, L. }
  destruct (find root pm title_tag) as [pt|] eqn:T; [|exact H].
  destruct (text_of root pt) as [t|]; [|exact H].
  destruct (truthy title_suffix && truthy t && negb (str_in title_suffix t));
    [|exact H].
  rewrite text_of_set_text_other; [exact H|].
  intros ->. eapply find_distinct; [exact L | exact T | | reflexivity].
  apply tags_distinct.
Qed.

Lemma lang_step_twice root pm lang_code :
  lang_step (lang_step root pm lang_code) pm lang_code
  = lang_step root pm lang_code.
Proof.
  unfold lang_step at 1. rewrite find_lang_step. unfold lang_step.
  destruct (find root pm language_tag) as [pl|]; [|reflexivity].
  apply set_text_twice.
Qed.

(** Running the edits a second time changes nothing. *)
Lemma update_metadata_tree_idem root lang_code title_suffix :
  update_metadata_tree
    (update_metadata_tree root lang_code title_suffix) lang_code title_suffix
  = update_metadata_tree root lang_code title_suffix.
Proof.
  destruct (find root [] metadata_tag) as [pm|] eqn:M.
  2:{ unfold update_metadata_tree. rewrite M, M. reflexivity. }
  set (root2 := update_metadata_tree root lang_code title_suffix).
  assert (M2 : find root2 [] metadata_tag = Some pm)
    by (unfold root2; rewrite find_update_metadata_tree; exact M).
  rewrite (update_metadata_tree_eq _ lang_code title_suffix _ M2).
  unfold root2 at 1. rewrite find_update_metadata_tree.
  pose proof (title_of_update_metadata_tree root lang_code title_suffix) as Ht.
  unfold title_of in Ht. rewrite !find_update_metadata_tree, M in Ht.
  rewrite find_update_metadata_tree in Ht. fold root2 in Ht.
  assert (L2 : lang_step root2 pm lang_code = root2).
  { unfold root2. rewrite (update_metadata_tree_eq _ lang_code title_suffix _ M).
    destruct (find root pm title_tag) as [pt|] eqn:T;
      [|apply lang_step_twice].
    destruct (text_of root pt) as [t|]; [|apply lang_step_twice].
    destruct (truthy title_suffix && truthy t && negb (str_in title_suffix t));
      [|apply lang_step_twice].
    unfold lang_step at 1. rewrite find_set_text, find_lang_step.
    unfold lang_step.
    destruct (find root pm language_tag) as [pl|] eqn:L; [|reflexivity].
    rewrite set_text_comm, set_text_twice; [reflexivity|].
    intros ->. eapply find_distinct; [exact T | exact L | | reflexivity].
    intros E; symmetry in E; revert E. apply tags_distinct. }
  rewrite L2.
  destruct (find root pm title_tag) as [pt|] eqn:T; [|reflexivity].
  rewrite Ht. unfold append_suffix.
  destruct (text_of root pt) as [t|]; [|reflexivity].
  destruct (truthy title_suffix && truthy t && negb (str_in title_suffix t))
    eqn:C.
  - rewrite str_in_appended, andb_false_r. reflexivity.
  - rewrite C. reflexivity.
Qed.

Lemma update_metadata_tree_no_metadata root lang_code title_suffix :
  find root [] metadata_tag = None ->
  update_metadata_tree root lang_code title_suffix = root.
Proof. intros M. unfold update_metadata_tree. rewrite M. reflexivity. Qed.

(** ** The file-system tree *)

Lemma assoc_replace {A : Type} x (v : A) l y :
  assoc y (replace x v l) =
  match assoc x l with
  | Some _ => if String.eqb y x then Some v else assoc y l
  | None => assoc y l
  end.
Proof.
  induction l as [|[k w] l IH]; simpl; [reflexivity|].
  destruct (String.eqb_spec x k) as [->|Hxk]; simpl.
  - destruct (String.eqb y k); reflexivity.
  - rewrite IH. destruct (String.eqb_spec y k) as [->|Hyk].
    + destruct (assoc x l); [|reflexivity].
      destruct (String.eqb_spec k x); [congruence|reflexivity].
    + reflexivity.
Qed.

Lemma replace_same {A : Type} x (v : A) l :
  assoc x l = Some v -> replace x v l = l.
Proof.
  induction l as [|[k w] l IH]; simpl; [reflexivity|].
  destruct (String.eqb x k); intros H.
  - congruence.
  - rewrite IH; auto.
Qed.

Lemma lookup_app t c : forall q,
  lookup t (c ++ q) = match lookup t c with
                      | Some n => lookup n q
                      | None => None
                      end.
Proof.
  revert t; induction c as [|x c IH]; intros t q; simpl; [reflexivity|].
  destruct t as [d|es]; [reflexivity|].
  destruct (assoc x es); [apply IH | reflexivity].
Qed.

(** Putting a node where something already is replaces exactly that. *)
Lemma put_existing c : forall t n0 n,
  lookup t c = Some n0 ->
  exists t', put t c n = Ok t' /\ lookup t' c = Some n.
Proof.
  induction c as [|x c IH]; intros t n0 n H; simpl in *.
  - exists n. auto.
  - destruct t as [d|es]; [discriminate|].
    destruct (assoc x es) as [ch|] eqn:E; [|discriminate].
    destruct (IH ch n0 n H) as (ch' & -> & L). simpl.
    eexists; split; [reflexivity|]. simpl.
    rewrite assoc_replace, E, String.eqb_refl. exact L.
Qed.

Lemma put_same c : forall t n, lookup t c = Some n -> put t c n = Ok t.
Proof.
  induction c as [|x c IH]; intros t n H; simpl in *.
  - congruence.
  - destruct t as [d|es]; [discriminate|].
    destruct (assoc x es) as [ch|] eqn:E; [|discriminate].
    rewrite (IH ch n H). simpl. rewrite replace_same; auto.
Qed.

(** Overwriting a regular file changes no location's kind. *)
Lemma put_file_kind c : forall t d0 d t' q,
  lookup t c = Some (File d0) -> put t c (File d) = Ok t' ->
  kind_of (lookup t' q) = kind_of (lookup t q).
Proof.
  induction c as [|x c IH]; intros t d0 d t' q H P; simpl in *.
  - inversion H; inversion P; subst. destruct q; reflexivity.
  - destruct t as [d1|es]; [discriminate|].
    destruct (assoc x es) as [ch|] eqn:E; [|discriminate].
    destruct (put ch c (File d)) as [ch'|e] eqn:P'; simpl in P; [|discriminate].
    inversion P; subst t'. destruct q as [|y q]; simpl; [reflexivity|].
    rewrite assoc_replace, E.
    destruct (String.eqb_spec y x) as [->|Hyx].
    + rewrite E. eapply IH; eauto.
    + reflexivity.
Qed.

(** Resolution only looks at kinds. *)
Lemma realpath_kind t t' ps : forall cur,
  (forall q, kind_of (lookup t' q) = kind_of (lookup t q)) ->
  realpath t' cur ps = realpath t cur ps.
Proof.
  induction ps as [|x ps IH]; intros cur K; simpl; [reflexivity|].
  specialize (K cur) as Kc.
  destruct (lookup t cur) as [[d|es]|], (lookup t' cur) as [[d'|es']|];
    simpl in Kc; try discriminate; auto.
Qed.

(** A document that parses is a regular file. *)
Lemma ET_parse_file fs p doc :
  ET_parse fs p = Ok doc ->
  exists c d,
    realpath (root fs) (start fs p) (parts p) = Ok c
    /\ lookup (root fs) c = Some (File d)
    /\ parse_data d = Ok doc.
Proof.
  unfold ET_parse, locate.
  destruct (realpath (root fs) (start fs p) (parts p)) as [c|e] eqn:R;
    [|discriminate].
  destruct (lookup (root fs) c) as [[d|es]|] eqn:L; try discriminate.
  intros H. exists c, d. auto.
Qed.

(** Writing a tree over a document that parsed: the file becomes the
    serialisation of the tree. *)
Lemma ET_write_after_parse fs p old doc :
  ET_parse fs p = Ok old ->
  exists fs',
    ET_write fs p doc = Ok fs'
    /\ locate fs' p = Some (File (Written doc)).
Proof.
  intros H. destruct (ET_parse_file _ _ _ H) as (c & d & R & L & _).
  unfold ET_write, write_file, locate. rewrite R. simpl. rewrite L.
  destruct (put_existing c _ _ (File (Written doc)) L) as (t' & P & L').
  rewrite P. simpl. exists (MkFs t' (cwd fs)). split; [reflexivity|].
  assert (K : forall q, kind_of (lookup t' q) = kind_of (lookup (root fs) q))
    by (intros q; eapply put_file_kind; eauto).
  unfold start in *. simpl. rewrite (realpath_kind _ _ _ _ K), R. exact L'.
Qed.

Lemma ET_parse_written fs p doc :
  locate fs p = Some (File (Written doc)) -> ET_parse fs p = reparse doc.
Proof. unfold ET_parse. intros ->. reflexivity. Qed.

(** [update_metadata] succeeds on every document that parses, and leaves
    the serialisation of the edited tree on disk. *)
Lemma update_metadata_ok fs dir opf lang_code title_suffix doc :
  ET_parse fs (dir // Path opf) = Ok doc ->
  exists fs',
    update_metadata fs dir opf lang_code title_suffix = Ok fs'
    /\ locate fs' (dir // Path opf)
       = Some (File (Written (update_metadata_tree doc lang_code
                                                   title_suffix))).
Proof.
  intros H. unfold update_metadata. rewrite H. simpl.
  eapply ET_write_after_parse, H.
Qed.

(** ** Texts that are written and read back *)

(** Induction on a string two characters at a time, as [norm_eol]
    recurses. *)
Lemma string_ind2 (P : string -> Prop) :
  P EmptyString ->
  (forall c, P (String c EmptyString)) ->
  (forall c1 c2 s, P s -> P (String c2 s) -> P (String c1 (String c2 s))) ->
  forall s, P s.
Proof.
  intros H0 H1 H2.
  assert (A : forall s, P s /\ forall c, P (String c s)).
  { induction s as [|c s [IH1 IH2]]; split; auto. }
  intros s. apply A.
Qed.

Lemma xml_chars_app a b : xml_chars (a ++ b) = xml_chars a && xml_chars b.
Proof.
  induction a as [|c a IH]; simpl; [reflexivity|].
  rewrite IH. apply andb_assoc.
Qed.

Lemma xml_char_LF : xml_char LF = true.
Proof. reflexivity. Qed.

Lemma xml_chars_norm_eol s : xml_chars s = true -> xml_chars (norm_eol s) = true.
Proof.
  induction s as [|c|c1 c2 s IH1 IH2] using string_ind2; intros H.
  - reflexivity.
  - simpl in *. destruct (Ascii.eqb c CR); [reflexivity | exact H].
  - cbn [norm_eol]. cbn [xml_chars] in H.
    apply andb_true_iff in H. destruct H as [H1 H2].
    destruct (Ascii.eqb c1 CR).
    + cbn [xml_chars]. rewrite xml_char_LF. simpl.
      destruct (Ascii.eqb c2 LF); [|apply IH2, H2].
      apply andb_true_iff in H2. apply IH1, H2.
    + cbn [xml_chars]. rewrite H1. simpl. apply IH2, H2.
Qed.

Lemma norm_eol_no_cr s : no_cr s = true -> norm_eol s = s.
Proof.
  induction s as [|c s IH]; simpl; [reflexivity|].
  rewrite andb_true_iff, negb_true_iff. intros [-> H].
  rewrite (IH H). reflexivity.
Qed.

Lemma no_cr_norm_eol s : no_cr (norm_eol s) = true.
Proof.
  induction s as [|c|c1 c2 s IH1 IH2] using string_ind2.
  - reflexivity.
  - simpl. destruct (Ascii.eqb c CR) eqn:E; simpl; [reflexivity|].
    rewrite E. reflexivity.
  - cbn [norm_eol]. destruct (Ascii.eqb c1 CR) eqn:E.
    + cbn [no_cr]. change (Ascii.eqb LF CR) with false. simpl.
      destruct (Ascii.eqb c2 LF); [exact IH1 | exact IH2].
    + cbn [no_cr]. rewrite E. simpl. exact IH2.
Qed.

Lemma norm_eol_idem s : norm_eol (norm_eol s) = norm_eol s.
Proof. apply norm_eol_no_cr, no_cr_norm_eol. Qed.

Lemma truthy_norm_eol s : truthy (norm_eol s) = truthy s.
Proof.
  destruct s as [|c s]; [reflexivity|]. simpl.
  destruct (Ascii.eqb c CR); reflexivity.
Qed.

Lemma norm_text_idem x : norm_text (norm_text x) = norm_text x.
Proof.
  destruct x as [s|]; [|reflexivity]. unfold norm_text.
  destruct (truthy s) eqn:T; [|reflexivity].
  rewrite truthy_norm_eol, T, norm_eol_idem. reflexivity.
Qed.

Lemma legal_norm_text x : legal_text x = true -> legal_text (norm_text x) = true.
Proof.
  destruct x as [s|]; [|reflexivity]. unfold norm_text. simpl.
  destruct (truthy s); [apply xml_chars_norm_eol | reflexivity].
Qed.

(** A non-empty string without carriage return is read back as it is. *)
Lemma norm_text_stable s :
  truthy s = true -> no_cr s = true -> norm_text (Some s) = Some s.
Proof.
  intros T N. unfold norm_text. rewrite T, (norm_eol_no_cr _ N). reflexivity.
Qed.

Lemma prefix_app s u : String.prefix s (s ++ u) = true.
Proof.
  induction s as [|c s IH]; simpl.
  - destruct u; reflexivity.
  - destruct (Ascii.ascii_dec c c); [exact IH | contradiction].
Qed.

Lemma prefix_inv s : forall t,
  String.prefix s t = true -> exists u, t = (s ++ u)%string.
Proof.
  induction s as [|c s IH]; intros t H.
  - exists t. reflexivity.
  - destruct t as [|c' t]; simpl in H; [discriminate|].
    destruct (Ascii.ascii_dec c c') as [<-|]; [|discriminate].
    destruct (IH _ H) as [u ->]. exists u. reflexivity.
Qed.

Lemma norm_eol_app_no_cr s u :
  no_cr s = true -> norm_eol (s ++ u) = (s ++ norm_eol u)%string.
Proof.
  induction s as [|c s IH]; simpl; [reflexivity|].
  rewrite andb_true_iff, negb_true_iff. intros [-> H].
  rewrite (IH H). reflexivity.
Qed.

Lemma prefix_norm_eol s t :
  no_cr s = true -> String.prefix s t = true ->
  String.prefix s (norm_eol t) = true.
Proof.
  intros N H. destruct (prefix_inv _ _ H) as [u ->].
  rewrite (norm_eol_app_no_cr _ _ N). apply prefix_app.
Qed.

Lemma prefix_empty_r s : String.prefix s EmptyString = true -> s = EmptyString.
Proof. destruct s; [reflexivity | discriminate]. Qed.

Lemma str_in_empty t : str_in EmptyString t = true.
Proof. destruct t; reflexivity. Qed.

Lemma str_in_cons s c t : str_in s t = true -> str_in s (String c t) = true.
Proof. intros H. rewrite str_in_unfold, H. apply orb_true_r. Qed.

Lemma str_in_prefix s t : String.prefix s t = true -> str_in s t = true.
Proof. intros H. rewrite str_in_unfold, H. reflexivity. Qed.

Lemma str_in_empty_r s : str_in s EmptyString = true -> s = EmptyString.
Proof.
  simpl. rewrite orb_false_r. apply prefix_empty_r.
Qed.

(** A string without carriage return that occurs in a text occurs in the
    text as it is read back. *)
Lemma str_in_norm_eol s t :
  no_cr s = true -> str_in s t = true -> str_in s (norm_eol t) = true.
Proof.
  intros N. induction t as [|c|c1 c2 r IH1 IH2] using string_ind2; intros H.
  - exact H.
  - rewrite str_in_unfold in H. apply orb_true_iff in H.
    destruct H as [H|H].
    + apply str_in_prefix, prefix_norm_eol; assumption.
    + apply str_in_empty_r in H. subst s. apply str_in_empty.
  - rewrite str_in_unfold in H. apply orb_true_iff in H.
    destruct H as [H|H].
    + apply str_in_prefix, prefix_norm_eol; assumption.
    + cbn [norm_eol]. destruct (Ascii.eqb c1 CR).
      * destruct (Ascii.eqb_spec c2 LF) as [->|NE].
        -- rewrite str_in_unfold in H. apply orb_true_iff in H.
           destruct H as [H|H].
           ++ apply str_in_prefix.
              apply (prefix_norm_eol s (String LF r) N H).
           ++ apply str_in_cons, IH1, H.
        -- apply str_in_cons, IH2, H.
      * apply str_in_cons, IH2, H.
Qed.

(** ** Trees that are written and read back *)

Lemma etag_map_text f e : etag (map_text f e) = etag e.
Proof. destruct e; reflexivity. Qed.

Lemma eattrib_map_text f e : eattrib (map_text f e) = eattrib e.
Proof. destruct e; reflexivity. Qed.

Lemma etext_map_text f e : etext (map_text f e) = f (etext e).
Proof. destruct e; reflexivity. Qed.

Lemma echildren_map_text f e :
  echildren (map_text f e) = map (map_text f) (echildren e).
Proof. destruct e; reflexivity. Qed.

Lemma deref_map_text f p : forall d,
  deref (map_text f d) p = option_map (map_text f) (deref d p).
Proof.
  induction p as [|i p IH]; intros d; simpl; [reflexivity|].
  rewrite echildren_map_text, nth_error_map.
  destruct (nth_error (echildren d) i) as [c|]; simpl; [apply IH|reflexivity].
Qed.

Lemma find_desc_map_text f tag e :
  find_desc tag (map_text f e) = find_desc tag e.
Proof.
  induction e as [t a x cs IH] using element_ind'. simpl.
  apply find_first_ext. induction IH as [|c l Hc Hl IHl]; simpl; constructor.
  - split; [apply etag_map_text | exact Hc].
  - exact IHl.
Qed.

Lemma find_map_text f d r tag : find (map_text f d) r tag = find d r tag.
Proof.
  unfold find. rewrite deref_map_text.
  destruct (deref d r) as [e|]; simpl; [|reflexivity].
  rewrite find_desc_map_text. reflexivity.
Qed.

Lemma get_map_text f d r key : get (map_text f d) r key = get d r key.
Proof.
  unfold get. rewrite deref_map_text.
  destruct (deref d r) as [e|]; simpl; [|reflexivity].
  rewrite eattrib_map_text. reflexivity.
Qed.

Lemma child_indices_tags tag cs : forall cs' i,
  map etag cs = map etag cs' ->
  child_indices tag cs i = child_indices tag cs' i.
Proof.
  induction cs as [|c cs IH]; intros [|c' cs'] i H; simpl in *;
    try discriminate; [reflexivity|].
  inversion H as [[Hc Hcs]]. rewrite Hc, (IH _ _ Hcs). reflexivity.
Qed.

Lemma findall_map_text f d r tag :
  findall (map_text f d) r tag = findall d r tag.
Proof.
  unfold findall. rewrite deref_map_text.
  destruct (deref d r) as [e|]; simpl; [|reflexivity].
  rewrite (child_indices_tags tag _ (echildren e)); [reflexivity|].
  rewrite echildren_map_text, map_map. apply map_ext.
  intros c. apply etag_map_text.
Qed.

(** The text of an element read back is the text written, normalised. *)
Lemma text_of_map_text f d r :
  f None = None -> text_of (map_text f d) r = f (text_of d r).
Proof.
  intros F. unfold text_of. rewrite deref_map_text.
  destruct (deref d r) as [e|]; simpl; [apply etext_map_text | auto].
Qed.

Lemma map_text_ext f g e :
  (forall x, f x = g x) -> map_text f e = map_text g e.
Proof.
  intros H. induction e as [t a x cs IH] using element_ind'. simpl.
  rewrite H. f_equal. induction IH as [|c l Hc Hl IHl]; simpl;
    [reflexivity | rewrite Hc, IHl; reflexivity].
Qed.

Lemma map_text_map_text f g e :
  map_text f (map_text g e) = map_text (fun x => f (g x)) e.
Proof.
  induction e as [t a x cs IH] using element_ind'. simpl. f_equal.
  rewrite map_map. induction IH as [|c l Hc Hl IHl]; simpl;
    [reflexivity | rewrite Hc, IHl; reflexivity].
Qed.

Lemma map_text_norm_idem e :
  map_text norm_text (map_text norm_text e) = map_text norm_text e.
Proof.
  rewrite map_text_map_text. apply map_text_ext, norm_text_idem.
Qed.

Lemma all_text_map p f e :
  (forall x, p x = true -> p (f x) = true) ->
  all_text p e = true -> all_text p (map_text f e) = true.
Proof.
  intros H. induction e as [t a x cs IH] using element_ind'. simpl.
  rewrite !andb_true_iff. intros [X C]. split; [auto|].
  induction IH as [|c l Hc Hl IHl]; simpl in *; [reflexivity|].
  apply andb_true_iff in C. destruct C as [C1 C2].
  rewrite (Hc C1), (IHl C2). reflexivity.
Qed.

Lemma all_text_children p e c :
  all_text p e = true -> In c (echildren e) -> all_text p c = true.
Proof.
  destruct e as [t a x cs]. simpl. rewrite andb_true_iff, forallb_forall.
  intros [_ H]. apply H.
Qed.

Lemma all_text_deref p r : forall d e,
  all_text p d = true -> deref d r = Some e ->
  all_text p e = true /\ p (etext e) = true.
Proof.
  induction r as [|i r IH]; intros d e A D; simpl in D.
  - inversion D; subst e. split; [exact A|].
    destruct d. simpl in A. apply andb_true_iff in A. apply A.
  - destruct (nth_error (echildren d) i) as [c|] eqn:N; [|discriminate].
    apply (IH c e); [|exact D].
    eapply all_text_children; [exact A | eapply nth_error_In, N].
Qed.

Lemma all_text_text_of p d r :
  p None = true -> all_text p d = true -> p (text_of d r) = true.
Proof.
  intros PN A. unfold text_of.
  destruct (deref d r) as [e|] eqn:D; [|exact PN].
  apply (all_text_deref p r d e A D).
Qed.

Lemma forallb_update_nth {A : Type} (q : A -> bool) (g : A -> A) l : forall i,
  (forall a, In a l -> q a = true -> q (g a) = true) ->
  forallb q l = true -> forallb q (update_nth i g l) = true.
Proof.
  induction l as [|a l IH]; intros [|i] H F; simpl in *; auto;
    apply andb_true_iff in F; destruct F as [F1 F2]; apply andb_true_iff.
  - split; [apply H; auto | exact F2].
  - split; [exact F1 | apply IH; auto].
Qed.

Lemma all_text_set_text p v r : forall d,
  p v = true -> all_text p d = true -> all_text p (set_text d r v) = true.
Proof.
  intros d V. revert d. induction r as [|i r IH]; intros d A.
  - destruct d as [t a x cs]. simpl in *. apply andb_true_iff in A.
    rewrite V. apply A.
  - destruct d as [t a x cs]. simpl in *. apply andb_true_iff in A.
    destruct A as [A1 A2]. rewrite A1. simpl.
    apply forallb_update_nth; [|exact A2]. intros c _. apply IH.
Qed.

(** ** The edited tree, written and read back *)

Lemma legal_lang_step doc pm lang_code :
  all_text legal_text doc = true -> legal_text lang_code = true ->
  all_text legal_text (lang_step doc pm lang_code) = true.
Proof.
  intros A L. unfold lang_step.
  destruct (find doc pm language_tag); [|exact A].
  apply all_text_set_text; assumption.
Qed.

(** Legal texts in, legal texts out. *)
Lemma legal_update_metadata_tree doc lang_code title_suffix :
  all_text legal_text doc = true ->
  legal_text lang_code = true ->
  xml_chars title_suffix = true ->
  all_text legal_text (update_metadata_tree doc lang_code title_suffix) = true.
Proof.
  intros A L S.
  destruct (find doc [] metadata_tag) as [pm|] eqn:M.
  - rewrite (update_metadata_tree_eq _ lang_code title_suffix _ M).
    pose proof (legal_lang_step doc pm lang_code A L) as H.
    destruct (find doc pm title_tag) as [pt|]; [|exact H].
    destruct (text_of doc pt) as [t|] eqn:T; [|exact H].
    destruct (truthy title_suffix && truthy t && negb (str_in title_suffix t));
      [|exact H].
    apply all_text_set_text; [|exact H]. simpl.
    pose proof (all_text_text_of legal_text doc pt eq_refl A) as Lt.
    rewrite T in Lt. simpl in Lt.
    rewrite xml_chars_app, Lt. simpl. exact S.
  - rewrite (update_metadata_tree_no_metadata _ _ _ M). exact A.
Qed.

Lemma reparse_legal doc :
  all_text legal_text doc = true -> reparse doc = Ok (map_text norm_text doc).
Proof. unfold reparse. intros ->. reflexivity. Qed.

Lemma legal_map_norm doc :
  all_text legal_text doc = true ->
  all_text legal_text (map_text norm_text doc) = true.
Proof. apply all_text_map. apply legal_norm_text. Qed.

(** Whatever a parser returned has legal texts, when the file was written
    by [ElementTree.write]. *)
Lemma reparse_gives_legal w doc :
  reparse w = Ok doc -> all_text legal_text doc = true.
Proof.
  unfold reparse. destruct (all_text legal_text w) eqn:A; [|discriminate].
  intros H. inversion H. apply legal_map_norm, A.
Qed.

Lemma title_of_map_norm doc :
  title_of (map_text norm_text doc) = norm_text (title_of doc).
Proof.
  unfold title_of. rewrite find_map_text.
  destruct (find doc [] metadata_tag) as [pm|]; [|reflexivity].
  rewrite find_map_text.
  destruct (find doc pm title_tag) as [pt|]; [|reflexivity].
  apply text_of_map_text. reflexivity.
Qed.

Lemma language_of_map_norm doc :
  language_of (map_text norm_text doc) = norm_text (language_of doc).
Proof.
  unfold language_of. rewrite find_map_text.
  destruct (find doc [] metadata_tag) as [pm|]; [|reflexivity].
  rewrite find_map_text.
  destruct (find doc pm language_tag) as [pl|]; [|reflexivity].
  apply text_of_map_text. reflexivity.
Qed.

(** The editor on a document with legal texts, given legal texts: the file
    it leaves parses to the edited tree, normalised. *)
Lemma update_metadata_reread fs dir opf lang_code title_suffix doc :
  ET_parse fs (dir // Path opf) = Ok doc ->
  all_text legal_text doc = true ->
  legal_text lang_code = true ->
  xml_chars title_suffix = true ->
  exists fs',
    update_metadata fs dir opf lang_code title_suffix = Ok fs'
    /\ ET_parse fs' (dir // Path opf)
       = Ok (map_text norm_text
               (update_metadata_tree doc lang_code title_suffix)).
Proof.
  intros P A L S.
  destruct (update_metadata_ok fs dir opf lang_code title_suffix _ P)
    as (fs' & U & W).
  exists fs'. split; [exact U|].
  rewrite (ET_parse_written _ _ _ W). apply reparse_legal.
  apply legal_update_metadata_tree; assumption.
Qed.

(** The title policy survives the round trip through the file when the
    suffix has no carriage return. *)
Lemma append_suffix_reread s t :
  no_cr s = true ->
  norm_text (append_suffix s (norm_text (append_suffix s t)))
  = norm_text (append_suffix s t).
Proof.
  intros N. destruct t as [t|]; [|reflexivity].
  remember (append_suffix s (Some t)) as A eqn:EA.
  unfold append_suffix in EA.
  destruct (truthy s && truthy t && negb (str_in s t)) eqn:C; subst A.
  - assert (T : truthy (t ++ " " ++ s) = true).
    { apply andb_true_iff in C. destruct C as [C _].
      apply andb_true_iff in C. destruct C as [_ C].
      destruct t; [discriminate | reflexivity]. }
    unfold norm_text at 2. rewrite T. unfold append_suffix.
    rewrite (str_in_norm_eol _ _ N (str_in_appended s t)), andb_false_r.
    unfold norm_text. rewrite truthy_norm_eol, T, norm_eol_idem. reflexivity.
  - unfold norm_text at 2. destruct (truthy t) eqn:T;
      [|simpl; rewrite T; reflexivity].
    unfold append_suffix. rewrite truthy_norm_eol, T.
    assert (C' : truthy s && true && negb (str_in s (norm_eol t)) = false).
    { destruct (truthy s); [simpl in *|reflexivity].
      apply negb_false_iff in C. rewrite (str_in_norm_eol _ _ N C).
      reflexivity. }
    rewrite C'. unfold norm_text. rewrite truthy_norm_eol, T, norm_eol_idem.
    reflexivity.
Qed.

(** ** The Metadata Editor *)

Example sample_work_is_extraction :
  extract_epub sample_fs sample_epub (Path "work")
  = Ok (sample_work,
        MkInfo (Path "work") "OEBPS/content.opf" (Path "work/OEBPS/content.opf")).
Proof. reflexivity. Qed.

(** The scenario of the spec: language [en], title [My Book], updated with
    [zh-CN] and [(Chinese)]; the second identical update leaves the title
    as it is. *)
Example update_metadata_scenario :
  exists fs1 fs2,
    update_metadata sample_work (Path "work") "OEBPS/content.opf"
                    (Some "zh-CN") "(Chinese)" = Ok fs1
    /\ rmap language_of (ET_parse fs1 (Path "work/OEBPS/content.opf"))
       = Ok (Some "zh-CN")
    /\ doc_title fs1 (Path "work/OEBPS/content.opf")
       = Ok (Some "My Book (Chinese)")
    /\ update_metadata fs1 (Path "work") "OEBPS/content.opf"
                       (Some "zh-CN") "(Chinese)" = Ok fs2
    /\ doc_title fs2 (Path "work/OEBPS/content.opf")
       = Ok (Some "My Book (Chinese)").
Proof. eexists. eexists. repeat split; reflexivity. Qed.

(** C3, as stated, fails.  The editor writes the package document back on
    every call, so a file that was not in the form [ElementTree.write]
    produces is changed even when the tree has no [metadata]; and called
    without a language code and without a title suffix it still overwrites
    an existing language field ([en] is lost), for [None] as for the empty
    string. *)
Lemma update_metadata_without_language_not_noop :
  (exists fs',
     update_metadata sample_bare (Path "") "content.opf" None "" = Ok fs'
     /\ fs' <> sample_bare)
  /\ (exists fs',
        update_metadata sample_work (Path "work") "OEBPS/content.opf" None ""
        = Ok fs'
        /\ rmap language_of
                (ET_parse sample_work (Path "work/OEBPS/content.opf"))
           = Ok (Some "en")
        /\ rmap language_of (ET_parse fs' (Path "work/OEBPS/content.opf"))
           = Ok None)
  /\ (exists fs',
        update_metadata sample_work (Path "work") "OEBPS/content.opf"
                        (Some "") "" = Ok fs'
        /\ rmap language_of (ET_parse fs' (Path "work/OEBPS/content.opf"))
           = Ok None).
Proof.
  split; [|split]; eexists; repeat split; try reflexivity; discriminate.
Qed.

(** C3 (amended): without a language code the command does not call the
    editor and leaves the file system as it is.  The editor itself always
    writes the document back: when the [metadata] element is absent, and
    when the [language] field is absent and no usable title suffix is
    given, what it writes is the tree exactly as parsed; that file is the
    serialisation of the tree, and it reads back as the tree with
    normalised texts. *)
Theorem update_metadata_noop fs dir opf lang_code title_suffix doc :
  ET_parse fs (dir // Path opf) = Ok doc ->
  (find doc [] metadata_tag = None ->
   update_metadata fs dir opf lang_code title_suffix
   = ET_write fs (dir // Path opf) doc)
  /\ (forall pm,
        find doc [] metadata_tag = Some pm ->
        find doc pm language_tag = None ->
        truthy title_suffix = false ->
        update_metadata fs dir opf lang_code title_suffix
        = ET_write fs (dir // Path opf) doc)
  /\ (exists fs',
        ET_write fs (dir // Path opf) doc = Ok fs'
        /\ locate fs' (dir // Path opf) = Some (File (Written doc))
        /\ (all_text legal_text doc = true ->
            ET_parse fs' (dir // Path opf) = Ok (map_text norm_text doc)))
  /\ (forall lang suffix,
        truthy_opt lang = false ->
        main_update_meta fs dir opf lang suffix = Ok fs).
Proof.
  intros P.
  assert (U : forall w, update_metadata_tree doc lang_code title_suffix = w ->
              update_metadata fs dir opf lang_code title_suffix
              = ET_write fs (dir // Path opf) w).
  { intros w <-. unfold update_metadata. rewrite P. reflexivity. }
  split; [|split; [|split]].
  - intros M. apply U, update_metadata_tree_no_metadata, M.
  - intros pm M L T. apply U.
    rewrite (update_metadata_tree_eq _ lang_code title_suffix _ M).
    unfold lang_step. rewrite L, T. simpl.
    destruct (find doc pm title_tag) as [pt|]; [|reflexivity].
    destruct (text_of doc pt); reflexivity.
  - destruct (ET_write_after_parse fs (dir // Path opf) doc doc P)
      as (fs' & W & L).
    exists fs'. split; [exact W|]. split; [exact L|].
    intros A. rewrite (ET_parse_written _ _ _ L). apply reparse_legal, A.
  - intros lang suffix F. unfold main_update_meta. rewrite F. reflexivity.
Qed.

Lemma update_metadata_noop_witness :
  update_metadata sample_bare (Path "") "content.opf" (Some "zh-CN") "(Chinese)"
  = ET_write sample_bare (Path "" // Path "content.opf")
             (Element "{http://www.idpf.org/2007/opf}package" [] None []).
Proof.
  apply (proj1 (update_metadata_noop
                  sample_bare (Path "") "content.opf" (Some "zh-CN")
                  "(Chinese)"
                  (Element "{http://www.idpf.org/2007/opf}package" [] None [])
                  eq_refl)).
  reflexivity.
Defined.




(** C8, as stated, fails: a code that holds a carriage return is read
    back from the written document with a line feed in its place, and a
    code with a control character leaves a package document that can no
    longer be parsed.  ([suffix_cr] is used as the code here.) *)
Lemma update_metadata_language_not_read_back :
  (exists fs',
     update_metadata sample_work (Path "work") "OEBPS/content.opf"
                     (Some suffix_cr) "" = Ok fs'
     /\ rmap language_of (ET_parse fs' (Path "work/OEBPS/content.opf"))
        = Ok (Some (String "a"%char (String LF "b")))
     /\ rmap language_of (ET_parse fs' (Path "work/OEBPS/content.opf"))
        <> Ok (Some suffix_cr))
  /\ (exists fs',
        update_metadata sample_work (Path "work") "OEBPS/content.opf"
                        (Some code_ctrl) "" = Ok fs'
        /\ ET_parse fs' (Path "work/OEBPS/content.opf") = Err ParseError).
Proof.
  split; eexists; split; try reflexivity.
  split; [reflexivity | discriminate].
Qed.

(** C8 (amended): the editor never fails on a document that parses.  In
    the tree it writes, the text of an existing [language] field is the
    supplied code; without the field that edit is skipped and no text
    other than the title's changes.  When the document's texts, the code
    and the suffix are legal, the file reads back with the code
    normalised as the field's text, which is the code itself when it is
    non-empty and has no carriage return. *)
Theorem update_metadata_language fs dir opf lang_code title_suffix doc :
  ET_parse fs (dir // Path opf) = Ok doc ->
  exists fs' w,
    update_metadata fs dir opf lang_code title_suffix = Ok fs'
    /\ locate fs' (dir // Path opf) = Some (File (Written w))
    /\ (forall pm,
          find doc [] metadata_tag = Some pm ->
          find w [] metadata_tag = Some pm
          /\ match find doc pm language_tag with
             | Some lang =>
                 find w pm language_tag = Some lang
                 /\ text_of w lang = lang_code
             | None =>
                 find w pm language_tag = None
                 /\ forall r, find doc pm title_tag <> Some r ->
                              text_of w r = text_of doc r
             end)
    /\ (all_text legal_text doc = true ->
        legal_text lang_code = true ->
        xml_chars title_suffix = true ->
        exists doc',
          ET_parse fs' (dir // Path opf) = Ok doc'
          /\ forall pm,
               find doc [] metadata_tag = Some pm ->
               find doc' [] metadata_tag = Some pm
               /\ match find doc pm language_tag with
                  | Some lang =>
                      find doc' pm language_tag = Some lang
                      /\ text_of doc' lang = norm_text lang_code
                      /\ (forall code,
                            lang_code = Some code ->
                            truthy code = true -> no_cr code = true ->
                            text_of doc' lang = Some code)
                  | None => find doc' pm language_tag = None
                  end).
Proof.
  intros P.
  destruct (update_metadata_ok fs dir opf lang_code title_suffix _ P)
    as (fs' & U & W).
  exists fs', (update_metadata_tree doc lang_code title_suffix).
  split; [exact U|]. split; [exact W|]. split.
  - intros pm M. rewrite !find_update_metadata_tree. split; [exact M|].
    destruct (find doc pm language_tag) as [pl|] eqn:L.
    + split; [reflexivity|].
      eapply language_of_update_metadata_tree; eauto.
    + split; [reflexivity|]. intros r Hr.
      rewrite (update_metadata_tree_eq _ lang_code title_suffix _ M).
      unfold lang_step. rewrite L.
      destruct (find doc pm title_tag) as [pt|]; [|reflexivity].
      destruct (text_of doc pt) as [t|]; [|reflexivity].
      destruct (truthy title_suffix && truthy t
                && negb (str_in title_suffix t)); [|reflexivity].
      apply text_of_set_text_other. congruence.
  - intros A L S.
    exists (map_text norm_text
              (update_metadata_tree doc lang_code title_suffix)).
    split.
    + rewrite (ET_parse_written _ _ _ W). apply reparse_legal.
      apply legal_update_metadata_tree; assumption.
    + intros pm M. rewrite !find_map_text, !find_update_metadata_tree.
      split; [exact M|].
      destruct (find doc pm language_tag) as [pl|] eqn:Lg; [|reflexivity].
      split; [reflexivity|].
      assert (T : text_of (map_text norm_text
                             (update_metadata_tree doc lang_code title_suffix))
                          pl = norm_text lang_code).
      { rewrite text_of_map_text; [|reflexivity].
        rewrite (language_of_update_metadata_tree _ _ _ _ _ M Lg).
        reflexivity. }
      split; [exact T|]. intros code -> Tc Nc. rewrite T.
      apply norm_text_stable; assumption.
Qed.

Lemma update_metadata_language_witness :
  exists fs' doc',
    update_metadata sample_work (Path "work") "OEBPS/content.opf"
                    (Some "zh-CN") "" = Ok fs'
    /\ ET_parse fs' (Path "work" // Path "OEBPS/content.opf") = Ok doc'
    /\ text_of doc' [0; 1] = Some "zh-CN".
Proof.
  destruct (update_metadata_language
              sample_work (Path "work") "OEBPS/content.opf" (Some "zh-CN") ""
              sample_opf eq_refl)
    as (fs' & w & U & W & _ & R).
  destruct (R eq_refl eq_refl eq_refl) as (doc' & P' & H).
  exists fs', doc'. split; [exact U|]. split; [exact P'|].
  destruct (H [0] eq_refl) as (_ & _ & _ & C).
  apply (C "zh-CN"); reflexivity.
Defined.

(** ** The Manifest Reader *)

(** What [extract_epub] reports when it succeeds. *)
Lemma extract_epub_info fs zf output_dir fs' info :
  extract_epub fs zf output_dir = Ok (fs', info) ->
  extract_dir info = output_dir
  /\ opf_full_path info = output_dir // Path (opf_path info).
Proof.
  unfold extract_epub.
  destruct (Path_mkdir fs output_dir) as [fs1|e]; [simpl|discriminate].
  destruct (extractall fs1 zf output_dir) as [fs2|e]; [simpl|discriminate].
  destruct (negb (exists_ fs2 _)); [discriminate|].
  destruct (ET_parse fs2 _) as [doc|e]; [simpl|discriminate].
  destruct (find doc [] rootfile_tag) as [rf|]; [|discriminate].
  destruct (get doc rf "full-path") as [s|]; [|discriminate].
  intros H; inversion H; subst. auto.
Qed.

(** The loop of [list_content_files] as a filter and a map. *)
Lemma list_loop_spec fs opf_dir doc items : forall acc,
  fold_left
    (fun content_files item =>
       let media_type := get_default doc item "media-type" "" in
       let href := get_default doc item "href" "" in
       let item_id := get_default doc item "id" "" in
       if mem_str media_type ["application/xhtml+xml"; "text/html"] then
         let full_path := opf_dir // Path href in
         if exists_ fs full_path then
           content_files ++ [MkContent item_id href full_path media_type]
         else content_files
       else content_files)
    items acc
  = acc ++ map (item_entry opf_dir doc) (filter (item_kept fs opf_dir doc) items).
Proof.
  induction items as [|item items IH]; intros acc.
  - simpl. rewrite app_nil_r. reflexivity.
  - cbn [fold_left filter]. rewrite IH. clear IH.
    unfold item_kept at 2. unfold recognized, item_path.
    destruct (mem_str (get_default doc item "media-type" "") _); cbn [andb].
    + destruct (exists_ fs _); cbn [map].
      * rewrite <- app_assoc. reflexivity.
      * reflexivity.
    + reflexivity.
Qed.

(** The loop of [get_content_files], likewise. *)
Lemma get_loop_spec fs opf_dir doc items : forall acc,
  fold_left
    (fun content_files item =>
       let media_type := get_default doc item "media-type" "" in
       let href := get_default doc item "href" "" in
       if mem_str media_type ["application/xhtml+xml"; "text/html"] then
         let full_path := opf_dir // Path href in
         if exists_ fs full_path then content_files ++ [full_path]
         else content_files
       else content_files)
    items acc
  = acc ++ map (item_path opf_dir doc) (filter (item_kept fs opf_dir doc) items).
Proof.
  induction items as [|item items IH]; intros acc.
  - simpl. rewrite app_nil_r. reflexivity.
  - cbn [fold_left filter]. rewrite IH. clear IH.
    unfold item_kept at 2. unfold recognized. unfold item_path at 2 3.
    destruct (mem_str (get_default doc item "media-type" "") _); cbn [andb].
    + destruct (exists_ fs _); cbn [map].
      * rewrite <- app_assoc. reflexivity.
      * reflexivity.
    + reflexivity.
Qed.

Lemma child_indices_sorted tag cs : forall i,
  StronglySorted lt (child_indices tag cs i)
  /\ Forall (fun k => i <= k) (child_indices tag cs i).
Proof.
  induction cs as [|c cs IH]; intros i; simpl.
  - split; constructor.
  - destruct (IH (S i)) as [S1 F1].
    assert (F2 : Forall (fun k => i <= k) (child_indices tag cs (S i))).
    { eapply Forall_impl; [|exact F1]. simpl. intros; lia. }
    destruct (String.eqb (etag c) tag).
    + split; constructor; auto.
    + split; auto.
Qed.

(** The items are the [item] children of one element, by increasing
    position: document order. *)
Lemma manifest_items_order doc :
  exists m idx,
    manifest_items doc = map (fun i => m ++ [i]) idx
    /\ StronglySorted lt idx.
Proof.
  unfold manifest_items.
  destruct (find doc [] manifest_tag) as [m|].
  - unfold findall. destruct (deref doc m) as [e|].
    + exists m, (child_indices item_tag (echildren e) 0). split; [reflexivity|].
      apply child_indices_sorted.
    + exists m, []. split; [reflexivity | constructor].
  - exists [], []. split; [reflexivity | constructor].
Qed.

(** C5: on the directory it extracted and the package document it parsed,
    [list_content_files] returns one entry per manifest [item], in document
    order, keeping exactly the items whose media type is recognized and
    whose resolved [href] exists; a document without [manifest] gives the
    empty list. *)
Theorem list_content_files_spec fs zf temp_dir fs0 fs1 info doc :
  os_mkdir fs temp_dir = Ok fs0 ->
  extract_epub fs0 zf temp_dir = Ok (fs1, info) ->
  ET_parse fs1 (opf_full_path info) = Ok doc ->
  let opf_dir := parent (opf_full_path info) in
  list_content_files fs zf temp_dir = Ok (content_entries fs1 opf_dir doc)
  /\ (forall e, In e (content_entries fs1 opf_dir doc) <->
                exists item,
                  In item (manifest_items doc)
                  /\ e = item_entry opf_dir doc item
                  /\ recognized (cf_media_type e) = true
                  /\ exists_ fs1 (cf_path e) = true)
  /\ (exists m idx,
        manifest_items doc = map (fun i => m ++ [i]) idx
        /\ StronglySorted lt idx)
  /\ (find doc [] manifest_tag = None ->
      list_content_files fs zf temp_dir = Ok []).
Proof.
  intros M X P opf_dir.
  assert (L : list_content_files fs zf temp_dir
              = Ok (content_entries fs1 opf_dir doc)).
  { unfold list_content_files. rewrite M. cbv beta iota delta [bind].
    rewrite X. cbv beta iota delta [bind].
    rewrite P. cbv beta iota delta [bind].
    unfold content_entries, manifest_items.
    destruct (find doc [] manifest_tag) as [m|]; [|reflexivity].
    rewrite list_loop_spec. reflexivity. }
  split; [exact L|]. split; [|split].
  - intros e. unfold content_entries. rewrite in_map_iff. split.
    + intros (item & <- & H). apply filter_In in H. destruct H as [I K].
      exists item. unfold item_kept in K. apply andb_true_iff in K.
      simpl. tauto.
    + intros (item & I & -> & R & E). exists item. split; [reflexivity|].
      apply filter_In. split; [exact I|].
      unfold item_kept. simpl in R, E. rewrite R, E. reflexivity.
  - apply manifest_items_order.
  - intros N. rewrite L. unfold content_entries, manifest_items.
    rewrite N. reflexivity.
Qed.

Lemma list_content_files_spec_witness :
  list_content_files sample_fs sample_epub (Path "/tmp/tmpq3x")
  = Ok [MkContent "ch1" "chapter1.xhtml"
                  (Path "/tmp/tmpq3x/OEBPS/chapter1.xhtml")
                  "application/xhtml+xml"].
Proof.
  destruct (os_mkdir sample_fs (Path "/tmp/tmpq3x")) as [fs0|] eqn:M;
    [|discriminate M].
  destruct (extract_epub fs0 sample_epub (Path "/tmp/tmpq3x"))
    as [[fs1 info]|] eqn:X;
    [|inversion M; subst fs0; discriminate X].
  destruct (ET_parse fs1 (opf_full_path info)) as [doc|] eqn:P;
    [|inversion M; subst fs0; inversion X; subst; discriminate P].
  rewrite (proj1 (list_content_files_spec
                    sample_fs sample_epub (Path "/tmp/tmpq3x")
                    fs0 fs1 info doc M X P)).
  inversion M; subst fs0. inversion X; subst fs1 info.
  inversion P; subst doc. reflexivity.
Defined.

(** C9: the path fields of [list_content_files] are what
    [get_content_files] returns on the directory that [list_content_files]
    extracted, with the package-document path the extractor reported; the
    two also fail together. *)
Theorem list_and_get_content_files_agree fs zf temp_dir :
  rmap (map cf_path) (list_content_files fs zf temp_dir)
  = (fs0 <- os_mkdir fs temp_dir ;;
     ' (fs1, info) <- extract_epub fs0 zf temp_dir ;;
     get_content_files fs1 (extract_dir info) (opf_path info)).
Proof.
  unfold list_content_files, get_content_files.
  destruct (os_mkdir fs temp_dir) as [fs0|e]; [|reflexivity].
  cbv beta iota delta [bind].
  destruct (extract_epub fs0 zf temp_dir) as [[fs1 info]|e] eqn:X;
    [|reflexivity].
  cbv beta iota delta [bind].
  destruct (extract_epub_info _ _ _ _ _ X) as [E1 E2].
  rewrite E1, <- E2.
  destruct (ET_parse fs1 (opf_full_path info)) as [doc|e]; [|reflexivity].
  cbv beta iota delta [bind].
  destruct (find doc [] manifest_tag) as [m|]; [|reflexivity].
  rewrite list_loop_spec, get_loop_spec. unfold rmap.
  cbv beta iota delta [bind app]. rewrite map_map. reflexivity.
Qed.

(** ** The Archive Packer *)

Lemma realpath_app t ps : forall cur qs,
  realpath t cur (ps ++ qs)
  = (c <- realpath t cur ps ;; realpath t c qs).
Proof.
  induction ps as [|x ps IH]; intros cur qs; simpl; [reflexivity|].
  destruct (lookup t cur) as [[d|es]|]; auto.
Qed.

(** Nothing exists below a path that does not exist. *)
Lemma locate_child_none fs p name :
  locate fs p = None -> locate fs (child p name) = None.
Proof.
  unfold locate, child, start. simpl. rewrite realpath_app.
  destruct (realpath (root fs) _ (parts p)) as [c|e]; simpl; [|reflexivity].
  intros ->. reflexivity.
Qed.

(** A loop that only appends: what it appends satisfies whatever each
    iteration's additions satisfy. *)
Lemma foldM_appends {A B : Type} (P : B -> Prop)
  (f : list B -> A -> result (list B)) l :
  (forall s a s', In a l -> f s a = Ok s' ->
                  exists added, s' = s ++ added /\ Forall P added) ->
  forall s s', foldM f l s = Ok s' ->
               exists added, s' = s ++ added /\ Forall P added.
Proof.
  induction l as [|a l IH]; intros Hf s s' H; simpl in H.
  - inversion H; subst. exists []. rewrite app_nil_r. auto.
  - destruct (f s a) as [s1|e] eqn:E; simpl in H; [|discriminate].
    destruct (Hf s a s1 (or_introl eq_refl) E) as (l1 & -> & F1).
    destruct (IH (fun s a s' I => Hf s a s' (or_intror I)) _ _ H)
      as (l2 & -> & F2).
    exists (l1 ++ l2). rewrite app_assoc. split; [reflexivity|].
    apply Forall_app; auto.
Qed.

Lemma strip_prefix_last pre : forall l x r,
  strip_prefix pre (l ++ [x]) = Some r -> r = [] \/ last r "" = x.
Proof.
  induction pre as [|p pre IH]; intros l x r H; simpl in H.
  - inversion H; subst. right. apply last_last.
  - destruct l as [|y l]; simpl in H.
    + destruct (String.eqb p x); [|discriminate].
      destruct pre; simpl in H; [|discriminate]. inversion H; auto.
    + destruct (String.eqb p y); [|discriminate]. eapply IH, H.
Qed.

(** What one iteration of the inner loop adds is not named [mimetype]. *)
Lemma pack_file_appends fs source_path dir zf file zf' :
  (if String.eqb file "mimetype" then Ok zf
   else
     let file_path := child dir file in
     arcname <- relative_to file_path source_path ;;
     zf_write fs zf file_path (parts arcname) ZIP_DEFLATED) = Ok zf' ->
  exists added,
    zf' = zf ++ added
    /\ Forall (fun z => last (filename z) "" <> "mimetype") added.
Proof.
  destruct (String.eqb_spec file "mimetype") as [E|E].
  - intros H; inversion H; subst. exists []. rewrite app_nil_r. auto.
  - cbv zeta. unfold relative_to, child. simpl.
    destruct (Bool.eqb _ _); [|discriminate].
    destruct (strip_prefix (parts source_path) (parts dir ++ [file]))
      as [r|] eqn:S; [simpl|discriminate].
    apply strip_prefix_last in S.
    unfold zf_write. destruct (locate fs _) as [[d|es]|]; [| |discriminate].
    + intros H; inversion H; subst. eexists; split; [reflexivity|].
      constructor; [|constructor]. simpl.
      destruct S as [->|S]; [discriminate | congruence].
    + intros H; inversion H; subst. eexists; split; [reflexivity|].
      constructor; [|constructor]. simpl. rewrite last_last. discriminate.
Qed.

(** The archive is the optional first entry followed by entries that are
    not named [mimetype]. *)
Lemma pack_epub_shape fs source_dir ar :
  pack_epub fs source_dir = Ok ar ->
  exists first rest,
    ar = first ++ rest
    /\ Forall (fun z => last (filename z) "" <> "mimetype") rest
    /\ match locate fs (child source_dir "mimetype") with
       | None => first = []
       | Some (File d) => first = [MkZipInfo ["mimetype"] ZIP_STORED d]
       | Some (Dir _) => first = [MkZipInfo ["mimetype"; ""] ZIP_STORED (Raw "")]
       end.
Proof.
  unfold pack_epub, exists_, zf_write.
  set (body := fun zf '(dir, _, files) => foldM _ files zf).
  intros H.
  assert (exists first,
             foldM body (os_walk fs source_dir) first = Ok ar
             /\ match locate fs (child source_dir "mimetype") with
                | None => first = []
                | Some (File d) => first = [MkZipInfo ["mimetype"] ZIP_STORED d]
                | Some (Dir _) =>
                    first = [MkZipInfo ["mimetype"; ""] ZIP_STORED (Raw "")]
                end) as (first & W & F).
  { destruct (locate fs (child source_dir "mimetype")) as [[d|es]|];
      simpl in H; eauto. }
  exists first.
  assert (exists rest,
             ar = first ++ rest
             /\ Forall (fun z => last (filename z) "" <> "mimetype") rest)
    as (rest & -> & R).
  { apply (foldM_appends (fun z => last (filename z) "" <> "mimetype")
                           body (os_walk fs source_dir)); [|exact W].
    intros s [[dir ds] files] s' _ B. unfold body in B.
    apply (foldM_appends (fun z => last (filename z) "" <> "mimetype")
                         _ files) in B; [exact B|].
    intros s0 file s0' _ B0. eapply pack_file_appends, B0. }
  exists rest. auto.
Qed.

(** C10: in the archive produced by the packer, an entry named [mimetype]
    (at any depth) can only be the first entry, which is then the stored
    top-level [mimetype]; files named [mimetype] below the top level never
    get an entry. *)
Theorem pack_epub_mimetype_only_first fs source_dir ar :
  pack_epub fs source_dir = Ok ar ->
  (forall i z,
     nth_error ar i = Some z ->
     last (filename z) "" = "mimetype" ->
     i = 0 /\ filename z = ["mimetype"] /\ compress_type z = ZIP_STORED
     /\ exists_ fs (child source_dir "mimetype") = true)
  /\ (forall z dir,
        In z ar -> dir <> [] -> filename z <> dir ++ ["mimetype"]).
Proof.
  intros H. apply pack_epub_shape in H.
  destruct H as (first & rest & -> & R & F).
  assert (A : forall i z,
             nth_error (first ++ rest) i = Some z ->
             last (filename z) "" = "mimetype" ->
             i = 0 /\ filename z = ["mimetype"]
             /\ compress_type z = ZIP_STORED
             /\ exists_ fs (child source_dir "mimetype") = true).
  { intros i z N L. unfold exists_.
    assert (Hrest : forall k, nth_error rest k = Some z -> False).
    { intros k Nk. apply nth_error_In in Nk.
      rewrite Forall_forall in R. exact (R _ Nk L). }
    destruct (locate fs (child source_dir "mimetype")) as [[d|es]|];
      subst first; simpl in N.
    - destruct i; simpl in N; [|exfalso; eauto].
      inversion N; subst z. auto.
    - destruct i; simpl in N; [|exfalso; eauto].
      inversion N; subst z. discriminate L.
    - exfalso; eauto. }
  split; [exact A|].
  intros z dir I D E. apply In_nth_error in I. destruct I as [i N].
  destruct (A i z N) as (_ & F1 & _).
  - rewrite E. apply last_last.
  - rewrite E in F1. destruct dir as [|x [|y dir]]; [congruence| |];
      discriminate F1.
Qed.

Lemma pack_epub_mimetype_only_first_witness :
  pack_epub sample_nested (Path "src")
  = Ok [MkZipInfo ["mimetype"] ZIP_STORED (Raw "application/epub+zip");
        MkZipInfo ["OEBPS"; "ch1.xhtml"] ZIP_DEFLATED (Raw "<html/>")]
  /\ (0 = 0
      /\ ["mimetype"] = ["mimetype"]
      /\ ZIP_STORED = ZIP_STORED
      /\ exists_ sample_nested (child (Path "src") "mimetype") = true).
Proof.
  split; [reflexivity|].
  apply (proj1 (pack_epub_mimetype_only_first
                  sample_nested (Path "src") _ eq_refl)
           0 (MkZipInfo ["mimetype"] ZIP_STORED (Raw "application/epub+zip")));
    reflexivity.
Defined.

(** C2, at the failing input: the nested file [OEBPS/mimetype] exists in
    the source tree and is neither the top-level [mimetype] nor a
    duplicate of it, yet the archive has no entry for it. *)
Theorem pack_epub_drops_nested_mimetype :
  locate sample_nested (Path "src/OEBPS/mimetype")
  = Some (File (Raw "text/plain"))
  /\ pack_epub sample_nested (Path "src")
     = Ok [MkZipInfo ["mimetype"] ZIP_STORED (Raw "application/epub+zip");
           MkZipInfo ["OEBPS"; "ch1.xhtml"] ZIP_DEFLATED (Raw "<html/>")]
  /\ forall ar z,
       pack_epub sample_nested (Path "src") = Ok ar ->
       In z ar -> filename z <> ["OEBPS"; "mimetype"].
Proof.
  split; [reflexivity|]. split; [reflexivity|].
  intros ar z H I. vm_compute in H. inversion H; subst ar.
  destruct I as [<-|[<-|[]]]; discriminate.
Qed.

(** C7, as stated, fails: for a source directory that does not exist the
    packer raises nothing and produces an archive, an empty one. *)
Lemma pack_epub_absent_source_succeeds :
  exists_ sample_fs (Path "missing") = false
  /\ pack_epub sample_fs (Path "missing") = Ok []
  /\ ~ exists e, pack_epub sample_fs (Path "missing") = Err e /\ IOError e.
Proof.
  split; [reflexivity|]. split; [reflexivity|].
  intros (e & H & _). discriminate H.
Qed.

(** C7 (amended): for every source-directory path that does not exist, the
    packer succeeds and the archive it writes has no entries. *)
Theorem pack_epub_missing_source fs source_dir :
  exists_ fs source_dir = false ->
  pack_epub fs source_dir = Ok [].
Proof.
  unfold exists_. intros H.
  destruct (locate fs source_dir) eqn:L; [discriminate|].
  unfold pack_epub, exists_, os_walk.
  rewrite (locate_child_none _ _ _ L), L. reflexivity.
Qed.

Lemma pack_epub_missing_source_witness :
  pack_epub sample_fs (Path "missing") = Ok [].
Proof. apply (pack_epub_missing_source sample_fs (Path "missing")). reflexivity. Defined.

(** ** The Archive Extractor *)

(** The extractor after the directory was made and the archive expanded:
    what remains is reading the container descriptor. *)
Lemma extract_epub_unfold fs zf output_dir fs1 fs2 :
  Path_mkdir fs output_dir = Ok fs1 ->
  extractall fs1 zf output_dir = Ok fs2 ->
  extract_epub fs zf output_dir =
  let container_path := child (child output_dir "META-INF") "container.xml" in
  if negb (exists_ fs2 container_path) then
    Err (FileNotFoundError "Invalid EPUB: container.xml not found")
  else
    doc <- ET_parse fs2 container_path ;;
    match find doc [] rootfile_tag with
    | None => Err (ValueError "No rootfile in container.xml")
    | Some rootfile =>
        match get doc rootfile "full-path" with
        | None => Err TypeError
        | Some p => Ok (fs2, MkInfo output_dir p (output_dir // Path p))
        end
    end.
Proof.
  intros M X. unfold extract_epub. rewrite M. cbv beta iota delta [bind].
  rewrite X. reflexivity.
Qed.

Lemma is_absolute_joinpath p q :
  is_absolute (p // q) = is_absolute p || is_absolute q.
Proof.
  unfold is_absolute, joinpath. destruct (anchored q) eqn:E.
  - rewrite E, orb_true_r. reflexivity.
  - simpl. rewrite orb_false_r. reflexivity.
Qed.

(** C6, as stated, fails: extracting into a relative target directory
    succeeds and the third component of the result is a relative path. *)
Lemma extract_epub_full_path_not_absolute :
  exists fs' info,
    extract_epub sample_fs sample_epub (Path "work") = Ok (fs', info)
    /\ opf_full_path info = Path "work/OEBPS/content.opf"
    /\ is_absolute (opf_full_path info) = false.
Proof.
  eexists. eexists. split; [reflexivity|]. split; reflexivity.
Qed.

(** C6 (amended): once the target directory is made and the archive
    expanded, the extractor fails with a [FormatError] when
    [META-INF/container.xml] is absent and when the descriptor holds no
    rootfile; on success it returns the target directory path, the
    package-document path as the descriptor gives it, and the second
    joined onto the first, a path that is absolute exactly when one of the
    two is. *)
Theorem extract_epub_spec fs zf output_dir fs1 fs2 :
  Path_mkdir fs output_dir = Ok fs1 ->
  extractall fs1 zf output_dir = Ok fs2 ->
  let container_path := child (child output_dir "META-INF") "container.xml" in
  (exists_ fs2 container_path = false ->
   exists e, extract_epub fs zf output_dir = Err e /\ FormatError e)
  /\ (forall doc,
        ET_parse fs2 container_path = Ok doc ->
        find doc [] rootfile_tag = None ->
        exists e, extract_epub fs zf output_dir = Err e /\ FormatError e)
  /\ (forall doc rootfile p,
        ET_parse fs2 container_path = Ok doc ->
        find doc [] rootfile_tag = Some rootfile ->
        get doc rootfile "full-path" = Some p ->
        extract_epub fs zf output_dir
        = Ok (fs2, MkInfo output_dir p (output_dir // Path p)))
  /\ (forall fs' info,
        extract_epub fs zf output_dir = Ok (fs', info) ->
        fs' = fs2
        /\ extract_dir info = output_dir
        /\ (exists doc rootfile,
              ET_parse fs2 container_path = Ok doc
              /\ find doc [] rootfile_tag = Some rootfile
              /\ get doc rootfile "full-path" = Some (opf_path info))
        /\ opf_full_path info = output_dir // Path (opf_path info)
        /\ is_absolute (opf_full_path info)
           = is_absolute output_dir || is_absolute (Path (opf_path info))).
Proof.
  intros M X container_path.
  rewrite (extract_epub_unfold _ _ _ _ _ M X). fold container_path.
  cbv zeta. split; [|split; [|split]].
  - intros E. rewrite E. simpl. eexists. split; [reflexivity|].
    left. reflexivity.
  - intros doc P F. unfold ET_parse in P. unfold exists_.
    destruct (locate fs2 container_path) as [n|] eqn:L; [|discriminate P].
    simpl. unfold ET_parse. rewrite L, P. simpl. rewrite F.
    eexists. split; [reflexivity|]. right. reflexivity.
  - intros doc rootfile p P F G. unfold ET_parse in P. unfold exists_.
    destruct (locate fs2 container_path) as [n|] eqn:L; [|discriminate P].
    simpl. unfold ET_parse. rewrite L, P. simpl. rewrite F, G. reflexivity.
  - intros fs' info H.
    destruct (negb (exists_ fs2 container_path)); [discriminate H|].
    destruct (ET_parse fs2 container_path) as [doc|e]; [|discriminate H].
    simpl in H.
    destruct (find doc [] rootfile_tag) as [rootfile|] eqn:F;
      [|discriminate H].
    destruct (get doc rootfile "full-path") as [p|] eqn:G; [|discriminate H].
    inversion H; subst fs' info. simpl.
    split; [reflexivity|]. split; [reflexivity|]. split.
    + exists doc, rootfile. auto.
    + split; [reflexivity|].
      apply is_absolute_joinpath.
Qed.

Lemma extract_epub_spec_witness :
  exists fs',
    extract_epub sample_fs sample_epub (Path "/tmp/book")
    = Ok (fs', MkInfo (Path "/tmp/book") "OEBPS/content.opf"
                      (Path "/tmp/book/OEBPS/content.opf")).
Proof.
  destruct (Path_mkdir sample_fs (Path "/tmp/book")) as [fs1|] eqn:M;
    [|discriminate M].
  destruct (extractall fs1 sample_epub (Path "/tmp/book")) as [fs2|] eqn:X;
    [|inversion M; subst fs1; discriminate X].
  exists fs2.
  apply (proj1 (proj2 (proj2 (extract_epub_spec
                                sample_fs sample_epub (Path "/tmp/book")
                                fs1 fs2 M X)))
           sample_container [0; 0]).
  - inversion M; subst fs1. inversion X; subst fs2. reflexivity.
  - reflexivity.
  - reflexivity.
Defined.

(** ** Directory trees: what extraction changes *)

(** Induction on a tree, with the hypothesis for every entry of a
    directory. *)
Lemma node_ind' (P : node -> Prop) :
  (forall d, P (File d)) ->
  (forall es, Forall (fun e => P (snd e)) es -> P (Dir es)) ->
  forall t, P t.
Proof.
  intros HF HD. fix IH 1. intros [d|es]; [apply HF|]. apply HD.
  induction es as [|[k n] es IHes]; constructor; [apply IH | exact IHes].
Qed.

Lemma mem_str_In x l : mem_str x l = true <-> In x l.
Proof.
  induction l as [|y l IH]; simpl.
  - split; [discriminate | contradiction].
  - rewrite orb_true_iff, IH, String.eqb_eq. split; intros [H|H]; auto.
Qed.

Lemma mem_str_app x l1 l2 :
  mem_str x (l1 ++ l2) = mem_str x l1 || mem_str x l2.
Proof.
  induction l1 as [|y l1 IH]; simpl; [reflexivity|].
  rewrite IH. apply orb_assoc.
Qed.

Lemma distinct_NoDup l : distinct l = true <-> NoDup l.
Proof.
  induction l as [|x l IH]; simpl.
  - split; [constructor | reflexivity].
  - rewrite andb_true_iff, negb_true_iff, IH, NoDup_cons_iff.
    rewrite <- mem_str_In. destruct (mem_str x l); split; intros [A B];
      split; auto; congruence.
Qed.

Lemma distinct_snoc l x :
  distinct l = true -> mem_str x l = false -> distinct (l ++ [x]) = true.
Proof.
  intros D M. apply distinct_NoDup.
  apply (Permutation_NoDup (Permutation_cons_append l x)).
  constructor.
  - rewrite <- mem_str_In, M. discriminate.
  - apply distinct_NoDup, D.
Qed.

Lemma assoc_In {A : Type} x (v : A) es : assoc x es = Some v -> In (x, v) es.
Proof.
  induction es as [|[k w] es IH]; simpl; [discriminate|].
  destruct (String.eqb_spec x k) as [->|N]; intros H.
  - inversion H; auto.
  - auto.
Qed.

Lemma assoc_None_mem {A : Type} x (es : list (string * A)) :
  assoc x es = None -> mem_str x (map fst es) = false.
Proof.
  induction es as [|[k w] es IH]; simpl; [reflexivity|].
  destruct (String.eqb x k); [discriminate | exact IH].
Qed.

Lemma In_assoc {A : Type} x (v : A) es :
  distinct (map fst es) = true -> In (x, v) es -> assoc x es = Some v.
Proof.
  induction es as [|[k w] es IH]; simpl; [contradiction|].
  rewrite andb_true_iff, negb_true_iff. intros [M D] [E|I].
  - inversion E; subst. rewrite String.eqb_refl. reflexivity.
  - destruct (String.eqb_spec x k) as [->|N]; [|auto].
    exfalso. apply (in_map fst) in I. apply mem_str_In in I.
    simpl in I. congruence.
Qed.

Lemma assoc_snoc {A : Type} y x (v : A) es :
  assoc y (es ++ [(x, v)]) =
  match assoc y es with
  | Some w => Some w
  | None => if String.eqb y x then Some v else None
  end.
Proof.
  induction es as [|[k w] es IH]; simpl; [reflexivity|].
  destruct (String.eqb y k); [reflexivity | exact IH].
Qed.

Lemma map_fst_replace {A : Type} x (v : A) es :
  map fst (replace x v es) = map fst es.
Proof.
  induction es as [|[k w] es IH]; simpl; [reflexivity|].
  destruct (String.eqb x k); simpl; [reflexivity | rewrite IH; reflexivity].
Qed.

(** A chain of fresh directories holds no file. *)
Lemma lookup_chain q : forall m d, lookup (chain q) m <> Some (File d).
Proof.
  induction q as [|x q IH]; intros [|y m] d; simpl; try discriminate.
  destruct (String.eqb y x); [apply IH | discriminate].
Qed.

(** Making directories neither adds nor changes a file. *)
Lemma makedirs_files c : forall t t',
  makedirs_node t c = Ok t' ->
  forall m d, lookup t' m = Some (File d) <-> lookup t m = Some (File d).
Proof.
  induction c as [|x q IH]; intros t t' H m d; simpl in H.
  - destruct t; [discriminate|]. inversion H; subst. reflexivity.
  - destruct t as [d0|es]; [discriminate|].
    destruct (assoc x es) as [ch|] eqn:A.
    + destruct (makedirs_node ch q) as [ch'|e] eqn:M; [|discriminate].
      simpl in H. inversion H; subst t'.
      destruct m as [|y m]; simpl; [split; discriminate|].
      rewrite assoc_replace, A.
      destruct (String.eqb_spec y x) as [->|N]; [|reflexivity].
      rewrite A. apply IH, M.
    + inversion H; subst t'.
      destruct m as [|y m]; simpl; [split; discriminate|].
      rewrite assoc_snoc. destruct (assoc y es); [reflexivity|].
      destruct (String.eqb y x); [|reflexivity].
      split; [|discriminate]. intros L. exfalso. eapply lookup_chain, L.
Qed.

(** Making directories keeps every directory. *)
Lemma makedirs_dirs c : forall t t',
  makedirs_node t c = Ok t' ->
  forall m es, lookup t m = Some (Dir es) ->
               exists es', lookup t' m = Some (Dir es').
Proof.
  induction c as [|x q IH]; intros t t' H m es0 L; simpl in H.
  - destruct t; [discriminate|]. inversion H; subst. eauto.
  - destruct t as [d0|es]; [discriminate|].
    destruct (assoc x es) as [ch|] eqn:A.
    + destruct (makedirs_node ch q) as [ch'|e] eqn:M; [|discriminate].
      simpl in H. inversion H; subst t'.
      destruct m as [|y m]; simpl in *; [eauto|].
      rewrite assoc_replace, A.
      destruct (String.eqb_spec y x) as [->|N]; [|eauto].
      rewrite A in L. eapply IH; eauto.
    + inversion H; subst t'.
      destruct m as [|y m]; simpl in *; [eauto|].
      rewrite assoc_snoc. destruct (assoc y es); [eauto | discriminate].
Qed.

(** Writing a file where there is no directory: the new file appears, every
    other file stays. *)
Lemma put_files q : forall t t' d,
  put t q (File d) = Ok t' ->
  (forall es, lookup t q <> Some (Dir es)) ->
  forall m d',
    lookup t' m = Some (File d')
    <-> (m = q /\ d' = d) \/ (m <> q /\ lookup t m = Some (File d')).
Proof.
  induction q as [|x q IH]; intros t t' d H ND m d'; simpl in H.
  - inversion H; subst t'. destruct t as [d0|es]; [|exfalso; eapply ND; reflexivity].
    destruct m as [|y m]; simpl.
    + split.
      * intros E; inversion E; auto.
      * intros [[_ ->]|[N _]]; [reflexivity | contradiction].
    + split; [discriminate|]. intros [[E _]|[_ E]]; discriminate.
  - destruct t as [d0|es]; [discriminate|].
    destruct (assoc x es) as [ch|] eqn:A.
    + destruct (put ch q (File d)) as [ch'|e] eqn:P; [|discriminate].
      simpl in H. inversion H; subst t'.
      assert (ND' : forall es', lookup ch q <> Some (Dir es')).
      { intros es' L. apply (ND es'). simpl. rewrite A. exact L. }
      destruct m as [|y m]; simpl.
      * split; [discriminate|]. intros [[E _]|[_ E]]; discriminate.
      * rewrite assoc_replace, A.
        destruct (String.eqb_spec y x) as [->|N].
        -- rewrite A, (IH _ _ _ P ND' m d').
           split; (intros [[E ->]|[E L]]; [left | right]; split; congruence).
        -- split.
           ++ intros L. right. split; [congruence | exact L].
           ++ intros [[E _]|[_ L]]; [congruence | exact L].
    + destruct q as [|z q]; [|discriminate]. inversion H; subst t'.
      destruct m as [|y m]; simpl.
      * split; [discriminate|]. intros [[E _]|[_ E]]; discriminate.
      * rewrite assoc_snoc. destruct (assoc y es) as [w|] eqn:B.
        -- split.
           ++ intros L. right. split; [|exact L]. intros E. congruence.
           ++ intros [[E _]|[_ L]]; [congruence | exact L].
        -- destruct (String.eqb_spec y x) as [->|N].
           ++ destruct m as [|y' m]; simpl.
              ** split.
                 --- intros E; inversion E; auto.
                 --- intros [[_ ->]|[E _]]; [reflexivity | congruence].
              ** split; [discriminate|].
                 intros [[E _]|[_ E]]; discriminate.
           ++ split; [discriminate|].
              intros [[E _]|[_ E]]; [congruence | discriminate].
Qed.

(** Writing a file where there is no directory keeps every directory. *)
Lemma put_dirs q : forall t t' d,
  put t q (File d) = Ok t' ->
  (forall es, lookup t q <> Some (Dir es)) ->
  forall m es, lookup t m = Some (Dir es) ->
               exists es', lookup t' m = Some (Dir es').
Proof.
  induction q as [|x q IH]; intros t t' d H ND m es0 L; simpl in H.
  - exfalso. destruct t as [d0|es]; [|eapply ND; reflexivity].
    destruct m; discriminate L.
  - destruct t as [d0|es]; [discriminate|].
    destruct (assoc x es) as [ch|] eqn:A.
    + destruct (put ch q (File d)) as [ch'|e] eqn:P; [|discriminate].
      simpl in H. inversion H; subst t'.
      assert (ND' : forall es', lookup ch q <> Some (Dir es')).
      { intros es' L'. apply (ND es'). simpl. rewrite A. exact L'. }
      destruct m as [|y m]; simpl in *; [eauto|].
      rewrite assoc_replace, A.
      destruct (String.eqb_spec y x) as [->|N]; [|eauto].
      rewrite A in L. eapply IH; eauto.
    + destruct q as [|z q]; [|discriminate]. inversion H; subst t'.
      destruct m as [|y m]; simpl in *; [eauto|].
      rewrite assoc_snoc. destruct (assoc y es); [eauto | discriminate].
Qed.

(** An operation below a location only changes the tree at that
    location. *)
Lemma makedirs_focus c : forall t s r t',
  lookup t c = Some s ->
  makedirs_node t (c ++ r) = Ok t' ->
  exists s', makedirs_node s r = Ok s' /\ lookup t' c = Some s'.
Proof.
  induction c as [|x c IH]; intros t s r t' L H; simpl in *.
  - inversion L; subst. eauto.
  - destruct t as [d0|es]; [discriminate|].
    destruct (assoc x es) as [ch|] eqn:A; [|discriminate].
    destruct (makedirs_node ch (c ++ r)) as [ch'|e] eqn:M; [|discriminate].
    simpl in H. inversion H; subst t'.
    destruct (IH _ _ _ _ L M) as (s' & M' & L'). exists s'.
    split; [exact M'|]. simpl. rewrite assoc_replace, A, String.eqb_refl.
    exact L'.
Qed.

Lemma put_focus c : forall t s r new t',
  lookup t c = Some s ->
  put t (c ++ r) new = Ok t' ->
  exists s', put s r new = Ok s' /\ lookup t' c = Some s'.
Proof.
  induction c as [|x c IH]; intros t s r new t' L H; simpl in *.
  - inversion L; subst. eauto.
  - destruct t as [d0|es]; [discriminate|].
    destruct (assoc x es) as [ch|] eqn:A; [|discriminate].
    destruct (put ch (c ++ r) new) as [ch'|e] eqn:M; [|discriminate].
    simpl in H. inversion H; subst t'.
    destruct (IH _ _ _ _ _ L M) as (s' & M' & L'). exists s'.
    split; [exact M'|]. simpl. rewrite assoc_replace, A, String.eqb_refl.
    exact L'.
Qed.

(** *** Well-formed trees *)

Lemma wf_node_dir es :
  wf_node (Dir es) = true <->
  distinct (map fst es) = true
  /\ forall k n, In (k, n) es -> valid_name k = true /\ wf_node n = true.
Proof.
  simpl. rewrite andb_true_iff, forallb_forall. split; intros [D F].
  - split; [exact D|]. intros k n I. apply F in I. simpl in I.
    apply andb_true_iff in I. exact I.
  - split; [exact D|]. intros [k n] I. apply F in I. simpl.
    apply andb_true_iff. exact I.
Qed.

Lemma In_replace {A : Type} x (v : A) es k w :
  In (k, w) (replace x v es) -> In (k, w) es \/ (In k (map fst es) /\ w = v).
Proof.
  induction es as [|[k0 w0] es IH]; simpl; [contradiction|].
  destruct (String.eqb x k0); simpl.
  - intros [E|I]; [inversion E; subst; auto | auto].
  - intros [E|I]; [auto|]. destruct (IH I) as [I'|[I' E]]; auto.
Qed.

Lemma valid_in_dir es k :
  wf_node (Dir es) = true -> In k (map fst es) -> valid_name k = true.
Proof.
  intros W I. apply wf_node_dir in W. destruct W as [_ F].
  apply in_map_iff in I. destruct I as ([k' n] & <- & I). apply (F _ _ I).
Qed.

Lemma wf_replace es x v :
  wf_node (Dir es) = true -> wf_node v = true ->
  wf_node (Dir (replace x v es)) = true.
Proof.
  intros W V. apply wf_node_dir. rewrite map_fst_replace. split.
  - apply wf_node_dir in W. tauto.
  - intros k n I. apply In_replace in I. destruct I as [I|[I ->]].
    + apply wf_node_dir in W. destruct W as [_ F]. exact (F _ _ I).
    + split; [eapply valid_in_dir; eauto | exact V].
Qed.

Lemma wf_snoc es x v :
  wf_node (Dir es) = true -> assoc x es = None ->
  valid_name x = true -> wf_node v = true ->
  wf_node (Dir (es ++ [(x, v)])) = true.
Proof.
  intros W A X V. apply wf_node_dir in W. destruct W as [D F].
  apply wf_node_dir. rewrite map_app. split.
  - apply distinct_snoc; [exact D | apply assoc_None_mem, A].
  - intros k n I. apply in_app_or in I. destruct I as [I|[E|[]]].
    + exact (F _ _ I).
    + inversion E; subst. auto.
Qed.

Lemma wf_child es x ch :
  wf_node (Dir es) = true -> assoc x es = Some ch ->
  valid_name x = true /\ wf_node ch = true.
Proof.
  intros W A. apply wf_node_dir in W. destruct W as [_ F].
  apply (F _ _ (assoc_In _ _ _ A)).
Qed.

Lemma wf_chain q : forallb valid_name q = true -> wf_node (chain q) = true.
Proof.
  induction q as [|x q IH]; simpl; [reflexivity|].
  rewrite andb_true_iff. intros [X Q]. rewrite X, (IH Q). reflexivity.
Qed.

Lemma wf_makedirs c : forall t t',
  wf_node t = true -> forallb valid_name c = true ->
  makedirs_node t c = Ok t' -> wf_node t' = true.
Proof.
  induction c as [|x q IH]; intros t t' W V H; simpl in H.
  - destruct t; [discriminate|]. inversion H; subst. exact W.
  - simpl in V. apply andb_true_iff in V. destruct V as [X Q].
    destruct t as [d0|es]; [discriminate|].
    destruct (assoc x es) as [ch|] eqn:A.
    + destruct (makedirs_node ch q) as [ch'|e] eqn:M; [|discriminate].
      simpl in H. inversion H; subst t'.
      apply wf_replace; [exact W|].
      eapply IH; [|exact Q|exact M]. eapply wf_child; eauto.
    + inversion H; subst t'.
      apply wf_snoc; auto. apply wf_chain, Q.
Qed.

Lemma wf_put q : forall t t' new,
  wf_node t = true -> wf_node new = true -> forallb valid_name q = true ->
  put t q new = Ok t' -> wf_node t' = true.
Proof.
  induction q as [|x q IH]; intros t t' new W N V H; simpl in H.
  - inversion H; subst. exact N.
  - simpl in V. apply andb_true_iff in V. destruct V as [X Q].
    destruct t as [d0|es]; [discriminate|].
    destruct (assoc x es) as [ch|] eqn:A.
    + destruct (put ch q new) as [ch'|e] eqn:M; [|discriminate].
      simpl in H. inversion H; subst t'.
      apply wf_replace; [exact W|].
      eapply IH; [|exact N|exact Q|exact M]. eapply wf_child; eauto.
    + destruct q as [|z q]; [|discriminate]. inversion H; subst t'.
      apply wf_snoc; auto.
Qed.

(** Whatever a well-formed tree holds is reached through valid names and is
    well-formed. *)
Lemma wf_lookup c : forall t s,
  wf_node t = true -> lookup t c = Some s ->
  wf_node s = true /\ forallb valid_name c = true.
Proof.
  induction c as [|x c IH]; intros t s W L; simpl in L.
  - inversion L; subst. auto.
  - destruct t as [d0|es]; [discriminate|].
    destruct (assoc x es) as [ch|] eqn:A; [|discriminate].
    destruct (wf_child _ _ _ W A) as [X C].
    destruct (IH _ _ C L) as [S V]. simpl. rewrite X, V. auto.
Qed.

(** ** Resolution of paths made of valid names *)

Lemma valid_not_dotdot x : valid_name x = true -> String.eqb x ".." = false.
Proof.
  unfold valid_name. simpl. rewrite andb_true_iff, negb_true_iff.
  intros [H _]. destruct (String.eqb x ".."); [|reflexivity].
  rewrite !orb_true_r in H. discriminate.
Qed.

Lemma step_valid cur x : valid_name x = true -> step cur x = cur ++ [x].
Proof. intros V. unfold step. rewrite (valid_not_dotdot _ V). reflexivity. Qed.

Lemma fold_left_step_valid q : forall cur,
  forallb valid_name q = true -> fold_left step q cur = cur ++ q.
Proof.
  induction q as [|x q IH]; intros cur V; simpl.
  - rewrite app_nil_r. reflexivity.
  - simpl in V. apply andb_true_iff in V. destruct V as [X Q].
    rewrite (step_valid _ _ X), (IH _ Q), <- app_assoc. reflexivity.
Qed.

(** Without symbolic links, a path that resolves resolves to its lexical
    normal form. *)
Lemma realpath_lexical t ps : forall cur c,
  realpath t cur ps = Ok c -> c = fold_left step ps cur.
Proof.
  induction ps as [|x ps IH]; intros cur c H; simpl in *.
  - inversion H; reflexivity.
  - destruct (lookup t cur) as [[d|es]|]; try discriminate. apply IH, H.
Qed.

Lemma realpath_valid t q : forall cur,
  forallb valid_name q = true ->
  realpath t cur q = Ok (cur ++ q)
  \/ (lookup t (cur ++ q) = None /\ exists e, realpath t cur q = Err e).
Proof.
  induction q as [|x q IH]; intros cur V; simpl.
  - left. rewrite app_nil_r. reflexivity.
  - simpl in V. apply andb_true_iff in V. destruct V as [X Q].
    rewrite lookup_app.
    destruct (lookup t cur) as [[d|es]|] eqn:L; [right; eauto | | right; eauto].
    rewrite (step_valid _ _ X).
    destruct (IH (cur ++ [x]) Q) as [H|[H E]];
      rewrite <- app_assoc in H; simpl in H.
    + left. exact H.
    + right. rewrite lookup_app, L in H. auto.
Qed.

(** Resolution only asks which locations are directories. *)
Lemma realpath_mono t t' ps : forall cur c,
  (forall m es, lookup t m = Some (Dir es) ->
                exists es', lookup t' m = Some (Dir es')) ->
  realpath t cur ps = Ok c -> realpath t' cur ps = Ok c.
Proof.
  induction ps as [|x ps IH]; intros cur c K H; simpl in *; [exact H|].
  destruct (lookup t cur) as [[d|es]|] eqn:L; try discriminate.
  destruct (K _ _ L) as [es' ->]. apply IH; assumption.
Qed.

(** A path below a directory that resolves to [c0] finds what the tree at
    [c0] holds under that name. *)
Lemma locate_below fs dir c0 s q :
  realpath (root fs) (start fs dir) (parts dir) = Ok c0 ->
  lookup (root fs) c0 = Some s ->
  forallb valid_name q = true ->
  locate fs (MkPath (anchored dir) (parts dir ++ q)) = lookup s q.
Proof.
  intros R L V. unfold locate, start. simpl. fold (start fs dir).
  rewrite realpath_app, R. simpl.
  destruct (realpath_valid (root fs) q c0 V) as [->|[N [e ->]]].
  - rewrite lookup_app, L. reflexivity.
  - rewrite lookup_app, L in N. auto.
Qed.

Lemma strip_prefix_app pre r : strip_prefix pre (pre ++ r) = Some r.
Proof.
  induction pre as [|x pre IH]; simpl; [reflexivity|].
  rewrite String.eqb_refl. exact IH.
Qed.

Lemma relative_to_below dir q :
  relative_to (MkPath (anchored dir) (parts dir ++ q)) dir
  = Ok (MkPath false q).
Proof.
  unfold relative_to. simpl. rewrite Bool.eqb_reflx, strip_prefix_app.
  reflexivity.
Qed.

(** ** The directory walk *)

Lemma path_eta top : MkPath (anchored top) (parts top ++ []) = top.
Proof. destruct top. simpl. rewrite app_nil_r. reflexivity. Qed.

Lemma In_filenames es file :
  In file (filenames es) <-> exists d, In (file, File d) es.
Proof.
  unfold filenames. rewrite in_map_iff. split.
  - intros ([k n] & <- & I). apply filter_In in I. destruct I as [I F].
    simpl in *. destruct n as [d|]; [eauto | discriminate].
  - intros [d I]. exists (file, File d). split; [reflexivity|].
    apply filter_In. auto.
Qed.

(** Every triple of the walk of a well-formed tree is a directory of the
    tree with its files. *)
Lemma walk_sound t : forall top dir ds fl,
  wf_node t = true ->
  In (dir, ds, fl) (walk_node top t) ->
  exists rel es,
    dir = MkPath (anchored top) (parts top ++ rel)
    /\ lookup t rel = Some (Dir es)
    /\ fl = filenames es.
Proof.
  induction t as [d|es IH] using node_ind'; intros top dir ds fl W I.
  - contradiction.
  - simpl in I. destruct I as [E|I].
    + inversion E; subst. exists [], es. rewrite path_eta. auto.
    + apply in_flat_map in I. destruct I as ([k n] & Ie & I). simpl in I.
      rewrite Forall_forall in IH.
      pose proof (proj1 (wf_node_dir es) W) as [D F].
      destruct (F _ _ Ie) as [_ Wn].
      destruct (IH _ Ie _ _ _ _ Wn I) as (rel & es' & -> & L & ->).
      exists (k :: rel), es'. simpl. rewrite <- app_assoc.
      rewrite (In_assoc _ _ _ D Ie). auto.
Qed.

(** Every file of the tree is listed by the walk, with its directory. *)
Lemma walk_complete rel : forall t top file d,
  lookup t (rel ++ [file]) = Some (File d) ->
  exists ds fl,
    In (MkPath (anchored top) (parts top ++ rel), ds, fl) (walk_node top t)
    /\ In file fl.
Proof.
  induction rel as [|x rel IH]; intros t top file d L; simpl in L.
  - destruct t as [d0|es]; [discriminate|].
    destruct (assoc file es) as [n|] eqn:A; [|discriminate].
    inversion L; subst n. exists (dirnames es), (filenames es).
    rewrite path_eta. split; [left; reflexivity|].
    apply In_filenames. exists d. apply assoc_In, A.
  - destruct t as [d0|es]; [discriminate|].
    destruct (assoc x es) as [ch|] eqn:A; [|discriminate].
    destruct (IH ch (child top x) file d L) as (ds & fl & I & F).
    exists ds, fl. split; [|exact F]. simpl. right.
    apply in_flat_map. exists (x, ch). split; [apply assoc_In, A|].
    simpl in *. rewrite <- app_assoc in I. exact I.
Qed.

(** ** The packer on a well-formed source tree *)

Lemma foldM_flat_map {A B : Type} (f : list B -> A -> result (list B))
  (g : A -> list B) l :
  (forall a s, In a l -> f s a = Ok (s ++ g a)) ->
  forall s, foldM f l s = Ok (s ++ flat_map g l).
Proof.
  induction l as [|a l IH]; intros Hf s; simpl.
  - rewrite app_nil_r. reflexivity.
  - rewrite (Hf a s (or_introl eq_refl)). simpl.
    rewrite IH, <- app_assoc; [reflexivity|].
    intros a' s' I. apply Hf. right. exact I.
Qed.

Section PackSource.
Variable fs : filesystem.
Variable src : path.
Variable c0 : list string.
Variable s : node.
Hypothesis src_resolves :
  realpath (root fs) (start fs src) (parts src) = Ok c0.
Hypothesis src_holds : lookup (root fs) c0 = Some s.
Hypothesis src_wf : wf_node s = true.

Lemma locate_source q :
  forallb valid_name q = true ->
  locate fs (MkPath (anchored src) (parts src ++ q)) = lookup s q.
Proof. apply (locate_below fs src c0 s q); assumption. Qed.

(** The inner loop over the files of one directory. *)
Lemma pack_files rel es zf :
  lookup s rel = Some (Dir es) ->
  foldM (fun zf file =>
           if String.eqb file "mimetype" then Ok zf
           else
             let file_path :=
               child (MkPath (anchored src) (parts src ++ rel)) file in
             arcname <- relative_to file_path src ;;
             zf_write fs zf file_path (parts arcname) ZIP_DEFLATED)
        (filenames es) zf
  = Ok (zf ++ flat_map (walk_entry rel es) (filenames es)).
Proof.
  intros L. apply foldM_flat_map. clear zf. intros file zf I.
  unfold walk_entry. destruct (String.eqb file "mimetype").
  - rewrite app_nil_r. reflexivity.
  - apply In_filenames in I. destruct I as [d I].
    destruct (wf_lookup _ _ _ src_wf L) as [Wd _].
    apply wf_node_dir in Wd. destruct Wd as [D _].
    pose proof (In_assoc _ _ _ D I) as A. rewrite A.
    assert (Lf : lookup s (rel ++ [file]) = Some (File d)).
    { rewrite lookup_app, L. simpl. rewrite A. reflexivity. }
    destruct (wf_lookup _ _ _ src_wf Lf) as [_ V].
    cbv zeta. unfold child. simpl. rewrite <- app_assoc.
    rewrite relative_to_below. simpl.
    unfold zf_write. rewrite (locate_source _ V), Lf. reflexivity.
Qed.

(** The archive written for the source tree [s]: the first entry, then the
    deflated files whose name is not [mimetype]. *)
Lemma pack_epub_entries :
  exists rest,
    pack_epub fs src = Ok (first_entry s ++ rest)
    /\ forall z,
         In z rest <->
         exists rel file d,
           lookup s (rel ++ [file]) = Some (File d)
           /\ file <> "mimetype"
           /\ z = MkZipInfo (rel ++ [file]) ZIP_DEFLATED d.
Proof.
  unfold pack_epub, exists_, zf_write, os_walk.
  change (child src "mimetype")
    with (MkPath (anchored src) (parts src ++ ["mimetype"])).
  rewrite (locate_source ["mimetype"] eq_refl).
  pose proof (locate_source [] eq_refl) as Ls. rewrite path_eta in Ls.
  rewrite Ls. simpl lookup at 3.
  set (body := fun zf '(dir, _, files) => foldM _ files zf).
  assert (B : forall t, In t (walk_node src s) ->
              exists rel es,
                fst (fst t) = MkPath (anchored src) (parts src ++ rel)
                /\ snd t = filenames es
                /\ lookup s rel = Some (Dir es)
                /\ forall zf, body zf t
                   = Ok (zf ++ flat_map (walk_entry rel es) (filenames es))).
  { intros [[dir ds] fl] I.
    destruct (walk_sound _ _ _ _ _ src_wf I) as (rel & es & -> & L & ->).
    exists rel, es. repeat split; auto.
    intros zf. apply (pack_files rel es zf L). }
  set (G := fun t => match body [] t with Ok l => l | Err _ => [] end).
  assert (BG : forall t zf, In t (walk_node src s) ->
                            body zf t = Ok (zf ++ G t)).
  { intros t zf I. destruct (B t I) as (rel & es & _ & _ & _ & E).
    unfold G. rewrite (E []), (E zf). reflexivity. }
  exists (flat_map G (walk_node src s)). split.
  - assert (F : forall zf, foldM body (walk_node src s) zf
                           = Ok (zf ++ flat_map G (walk_node src s))).
    { intros zf. apply foldM_flat_map. intros t zf' I. apply BG, I. }
    unfold first_entry.
    destruct (lookup s ["mimetype"]) as [[d|es]|]; simpl; apply F.
  - intros z. rewrite in_flat_map. split.
    + intros (t & I & Z). destruct (B t I) as (rel & es & _ & _ & L & E).
      unfold G in Z. rewrite (E []) in Z. simpl in Z.
      apply in_flat_map in Z. destruct Z as (file & _ & Z).
      unfold walk_entry in Z.
      destruct (String.eqb_spec file "mimetype") as [|N]; [contradiction|].
      destruct (assoc file es) as [[d|]|] eqn:A; try contradiction.
      destruct Z as [<-|[]]. exists rel, file, d.
      rewrite lookup_app, L. simpl. rewrite A. auto.
    + intros (rel & file & d & L & N & ->).
      destruct (walk_complete rel s src file d L) as (ds & fl & I & F).
      exists (MkPath (anchored src) (parts src ++ rel), ds, fl).
      split; [exact I|].
      destruct (B _ I) as (rel' & es & E1 & E2 & L' & E). simpl in E1, E2.
      inversion E1 as [E1']. apply app_inv_head in E1'. subst rel' fl.
      unfold G. rewrite (E []). simpl. apply in_flat_map.
      exists file. split; [exact F|]. unfold walk_entry.
      apply String.eqb_neq in N. rewrite N.
      rewrite lookup_app, L' in L. simpl in L.
      destruct (assoc file es) as [n|]; [|discriminate].
      inversion L; subst n. left. reflexivity.
Qed.

End PackSource.

(** ** Extraction of regular files with plain names *)

Lemma list_eqb_eq l1 : forall l2, list_eqb l1 l2 = true <-> l1 = l2.
Proof.
  induction l1 as [|x l1 IH]; intros [|y l2]; simpl;
    try (split; [discriminate | congruence]); [tauto|].
  rewrite andb_true_iff, String.eqb_eq, IH. split.
  - intros [-> ->]. reflexivity.
  - intros E. inversion E. auto.
Qed.

Lemma NoDup_map_inj {A B : Type} (f : A -> B) l x y :
  NoDup (map f l) -> In x l -> In y l -> f x = f y -> x = y.
Proof.
  induction l as [|a l IH]; simpl; [contradiction|].
  intros N Ix Iy E. inversion N as [|? ? Na Nl]; subst.
  destruct Ix as [->|Ix], Iy as [->|Iy]; auto.
  - exfalso. apply Na. rewrite E. apply in_map, Iy.
  - exfalso. apply Na. rewrite <- E. apply in_map, Ix.
Qed.

(** With distinct names, looking an entry up by its name finds it. *)
Lemma getinfo_nodup zf z :
  NoDup (map filename zf) -> In z zf -> getinfo zf (filename z) = Some z.
Proof.
  intros N I. unfold getinfo.
  destruct (List.find _ (rev zf)) as [z'|] eqn:F.
  - apply find_some in F. destruct F as [I' E].
    apply list_eqb_eq in E. apply in_rev in I'.
    f_equal. eapply NoDup_map_inj; eauto.
  - exfalso. apply find_none with (x := z) in F; [|apply in_rev in I; exact I].
    simpl in F. assert (T : list_eqb (filename z) (filename z) = true)
      by (apply list_eqb_eq; reflexivity).
    congruence.
Qed.

Lemma plain_name_spec n :
  plain_name n = true -> n <> [] /\ forallb valid_name n = true.
Proof. destruct n; [discriminate|]. intros H. split; [discriminate | exact H]. Qed.

Lemma filter_plain n :
  forallb valid_name n = true ->
  filter (fun x => negb (mem_str x [""; "."; ".."])) n = n.
Proof.
  induction n as [|x n IH]; [reflexivity|].
  cbn [forallb filter]. rewrite andb_true_iff. intros [X V].
  unfold valid_name in X. apply andb_true_iff in X. destruct X as [X _].
  rewrite X, (IH V). reflexivity.
Qed.

Lemma valid_not_empty x : valid_name x = true -> String.eqb x "" = false.
Proof.
  destruct (String.eqb_spec x "") as [->|]; [discriminate | reflexivity].
Qed.

Lemma zi_is_dir_plain z :
  forallb valid_name (filename z) = true -> zi_is_dir z = false.
Proof.
  intros V. unfold zi_is_dir.
  destruct (rev (filename z)) as [|l [|y r]] eqn:R; try reflexivity.
  apply valid_not_empty. rewrite forallb_forall in V. apply V.
  apply in_rev. rewrite R. left. reflexivity.
Qed.

Lemma forallb_removelast {A : Type} (f : A -> bool) l :
  forallb f l = true -> forallb f (removelast l) = true.
Proof.
  induction l as [|x [|y l] IH]; try reflexivity.
  cbn [forallb removelast] in *. rewrite !andb_true_iff. intros [X Y].
  split; [exact X | apply IH; apply andb_true_iff; exact Y].
Qed.

Lemma abspath_below fs out c0 n :
  realpath (root fs) (start fs out) (parts out) = Ok c0 ->
  forallb valid_name n = true ->
  abspath fs (MkPath (anchored out) (parts out ++ n)) = c0 ++ n.
Proof.
  intros R V. unfold abspath, start. simpl. fold (start fs out).
  rewrite fold_left_app, <- (realpath_lexical _ _ _ _ R).
  apply fold_left_step_valid, V.
Qed.

(** [_extract_member] for a regular file with a plain name, extracted
    below a directory that resolves to [c0]. *)
Lemma extract_member_plain fs z out c0 :
  plain_name (filename z) = true ->
  realpath (root fs) (start fs out) (parts out) = Ok c0 ->
  extract_member fs z out =
  (fs1 <- (if exists_at fs (c0 ++ removelast (filename z)) then Ok fs
           else t <- makedirs_node (root fs)
                                   (c0 ++ removelast (filename z)) ;;
                Ok (MkFs t (cwd fs))) ;;
   match lookup (root fs1) (c0 ++ filename z) with
   | Some (Dir _) => Err IsADirectoryError
   | _ => t <- put (root fs1) (c0 ++ filename z) (File (zdata z)) ;;
          Ok (MkFs t (cwd fs1))
   end).
Proof.
  intros P R. destruct (plain_name_spec _ P) as [NE V].
  unfold extract_member. cbv zeta.
  rewrite (filter_plain _ V), (zi_is_dir_plain _ V).
  rewrite (abspath_below _ _ _ _ R V), (removelast_app _ NE).
  destruct (filename z); [contradiction | reflexivity].
Qed.

(** Operations below one top-level name leave the other names alone. *)
Lemma makedirs_other_head c : forall t t' y m,
  makedirs_node t c = Ok t' -> (forall q, c <> y :: q) ->
  lookup t' (y :: m) = lookup t (y :: m).
Proof.
  intros t t' y m H N. destruct c as [|x q]; simpl in H.
  - destruct t; [discriminate|]. inversion H; reflexivity.
  - assert (String.eqb y x = false) as E.
    { apply String.eqb_neq. intros ->. eapply N; reflexivity. }
    destruct t as [d0|es]; [discriminate|].
    destruct (assoc x es) as [ch|] eqn:A.
    + destruct (makedirs_node ch q) as [ch'|e]; [|discriminate].
      simpl in H. inversion H; subst t'. simpl.
      rewrite assoc_replace, A, E. reflexivity.
    + inversion H; subst t'. simpl. rewrite assoc_snoc, E.
      destruct (assoc y es); reflexivity.
Qed.

Lemma put_other_head x q : forall t t' new y m,
  put t (x :: q) new = Ok t' -> x <> y ->
  lookup t' (y :: m) = lookup t (y :: m).
Proof.
  intros t t' new y m H N. simpl in H.
  assert (String.eqb y x = false) as E.
  { apply String.eqb_neq. congruence. }
  destruct t as [d0|es]; [discriminate|].
  destruct (assoc x es) as [ch|] eqn:A.
  - destruct (put ch q new) as [ch'|e]; [|discriminate].
    simpl in H. inversion H; subst t'. simpl.
    rewrite assoc_replace, A, E. reflexivity.
  - destruct q; [|discriminate]. inversion H; subst t'. simpl.
    rewrite assoc_snoc, E. destruct (assoc y es); reflexivity.
Qed.

Lemma mimetype_top_hd q : mimetype_top ("mimetype" :: q) = true -> q = [].
Proof.
  unfold mimetype_top. cbn [hd]. rewrite String.eqb_refl.
  cbn [orb negb]. rewrite orb_false_r. intros H.
  apply list_eqb_eq in H. congruence.
Qed.

Lemma mimetype_top_last rel :
  mimetype_top (rel ++ ["mimetype"]) = true -> rel = [].
Proof.
  unfold mimetype_top. rewrite last_last, String.eqb_refl, orb_true_r.
  cbn [negb]. rewrite orb_false_r. intros H. apply list_eqb_eq in H.
  destruct rel as [|x [|y rel]]; [reflexivity | discriminate | discriminate].
Qed.

Lemma removelast_not_mimetype n :
  mimetype_top n = true -> forall q, removelast n <> "mimetype" :: q.
Proof.
  intros M q E. destruct n as [|x [|y n]]; try discriminate.
  cbn [removelast] in E. inversion E; subst x.
  apply mimetype_top_hd in M. discriminate.
Qed.

(** One more entry extracted. *)
Lemma holds_step s P z s1 s' :
  holds s P ->
  plain_name (filename z) = true ->
  mimetype_top (filename z) = true ->
  ~ In (filename z) (map filename P) ->
  s1 = s \/ makedirs_node s (removelast (filename z)) = Ok s1 ->
  (forall es, lookup s1 (filename z) <> Some (Dir es)) ->
  put s1 (filename z) (File (zdata z)) = Ok s' ->
  holds s' (P ++ [z]).
Proof.
  intros (W & F & M) PN MT NI S1 ND PUT.
  destruct (plain_name_spec _ PN) as [NE V].
  assert (H1 : holds s1 P).
  { destruct S1 as [->|MK]; [repeat split; auto; apply F|].
    split; [|split].
    - eapply wf_makedirs; [exact W | apply forallb_removelast, V | exact MK].
    - intros m d. rewrite (makedirs_files _ _ _ MK). apply F.
    - intros es.
      rewrite (makedirs_other_head _ _ _ _ _ MK
                 (removelast_not_mimetype _ MT)).
      apply M. }
  clear W F M S1. destruct H1 as (W & F & M).
  split; [|split].
  - apply (wf_put _ _ _ _ W (eq_refl : wf_node (File (zdata z)) = true) V PUT).
  - intros m d. rewrite (put_files _ _ _ _ PUT ND). unfold entries.
    rewrite map_app, in_app_iff. cbn [map In]. fold (entries P).
    rewrite F. split.
    + intros [[-> ->]|[_ I]]; auto.
    + intros [I|[E|[]]].
      * right. split; [|exact I]. intros ->. apply NI.
        unfold entries in I. apply in_map_iff in I.
        destruct I as (z' & E & I). inversion E; subst.
        apply in_map, I.
      * inversion E; subst. auto.
  - intros es. destruct (filename z) as [|x q] eqn:E; [contradiction|].
    destruct (String.eqb_spec x "mimetype") as [->|N].
    + apply mimetype_top_hd in MT. subst q.
      pose proof (proj2 (put_files _ _ _ _ PUT ND ["mimetype"] (zdata z))
                    (or_introl (conj eq_refl eq_refl))) as L.
      rewrite L. discriminate.
    + rewrite (put_other_head _ _ _ _ _ _ _ PUT N). apply M.
Qed.

(** [_extract_member] seen from the extraction directory. *)
Lemma extract_member_step fs z out c0 s fs' :
  realpath (root fs) (start fs out) (parts out) = Ok c0 ->
  lookup (root fs) c0 = Some s ->
  plain_name (filename z) = true ->
  extract_member fs z out = Ok fs' ->
  exists s1 s',
    (s1 = s \/ makedirs_node s (removelast (filename z)) = Ok s1)
    /\ (forall es, lookup s1 (filename z) <> Some (Dir es))
    /\ put s1 (filename z) (File (zdata z)) = Ok s'
    /\ realpath (root fs') (start fs' out) (parts out) = Ok c0
    /\ lookup (root fs') c0 = Some s'.
Proof.
  intros R L PN H. rewrite (extract_member_plain _ _ _ _ PN R) in H.
  unfold start in *.
  set (m1 := if exists_at fs _ then _ else _) in H.
  assert (I : forall fs1, m1 = Ok fs1 ->
              exists s1,
                (s1 = s \/ makedirs_node s (removelast (filename z)) = Ok s1)
                /\ realpath (root fs1) (if anchored out then [] else cwd fs1)
                            (parts out) = Ok c0
                /\ lookup (root fs1) c0 = Some s1).
  { unfold m1. intros fs1 E. destruct (exists_at _ _).
    - inversion E; subst. exists s. auto.
    - destruct (makedirs_node (root fs) _) as [t|e] eqn:MK; [|discriminate].
      simpl in E. inversion E; subst fs1.
      destruct (makedirs_focus _ _ _ _ _ L MK) as (s1 & MK' & L1).
      exists s1. split; [right; exact MK'|]. split; [|exact L1]. simpl.
      apply (realpath_mono (root fs)); [apply (makedirs_dirs _ _ _ MK)|].
      exact R. }
  destruct m1 as [fs1|e]; [|discriminate]. simpl in H.
  destruct (I fs1 eq_refl) as (s1 & S1 & R1 & L1).
  assert (NDt : forall es,
             lookup (root fs1) (c0 ++ filename z) <> Some (Dir es)).
  { intros es E. rewrite E in H. discriminate. }
  assert (PUT : exists t', put (root fs1) (c0 ++ filename z)
                               (File (zdata z)) = Ok t'
                           /\ fs' = MkFs t' (cwd fs1)).
  { destruct (lookup (root fs1) (c0 ++ filename z)) as [[d0|es]|];
      try discriminate;
      (destruct (put (root fs1) _ _) as [t'|e]; [|discriminate]);
      simpl in H; inversion H; eauto. }
  destruct PUT as (t' & PUT & ->).
  destruct (put_focus _ _ _ _ _ _ L1 PUT) as (s' & PUT' & L').
  exists s1, s'. split; [exact S1|]. split; [|split; [exact PUT'|split]].
  - intros es E. apply (NDt es). rewrite lookup_app, L1. exact E.
  - simpl. apply (realpath_mono (root fs1));
      [apply (put_dirs _ _ _ _ PUT NDt) | exact R1].
  - exact L'.
Qed.

(** [extractall] on an archive of regular files with plain, distinct
    names. *)
Lemma extractall_holds A out c0 :
  Forall (fun z => plain_name (filename z) = true) A ->
  Forall (fun z => mimetype_top (filename z) = true) A ->
  NoDup (map filename A) ->
  forall R P fs s fs2,
    A = P ++ R ->
    realpath (root fs) (start fs out) (parts out) = Ok c0 ->
    lookup (root fs) c0 = Some s ->
    holds s P ->
    foldM (fun fs name =>
             match getinfo A name with
             | Some member => extract_member fs member out
             | None => Err (ValueError "no such member")
             end)
          (map filename R) fs = Ok fs2 ->
    exists s2,
      realpath (root fs2) (start fs2 out) (parts out) = Ok c0
      /\ lookup (root fs2) c0 = Some s2
      /\ holds s2 A.
Proof.
  intros PL MT ND. induction R as [|z R IH]; intros P fs s fs2 E Rp L H X;
    simpl in X.
  - inversion X; subst fs2. rewrite app_nil_r in E. subst P. eauto.
  - assert (Iz : In z A) by (rewrite E; apply in_elt).
    rewrite (getinfo_nodup _ _ ND Iz) in X.
    destruct (extract_member fs z out) as [fs'|e] eqn:EM; [|discriminate].
    simpl in X.
    pose proof (proj1 (Forall_forall _ _) PL _ Iz) as PLz.
    pose proof (proj1 (Forall_forall _ _) MT _ Iz) as MTz.
    destruct (extract_member_step _ _ _ _ _ _ Rp L PLz EM)
      as (s1 & s' & S1 & NDs & PUT & R' & L').
    apply (IH (P ++ [z]) fs' s' fs2); auto.
    + rewrite <- app_assoc. exact E.
    + eapply holds_step; eauto.
      pose proof ND as ND'. rewrite E, map_app in ND'. simpl in ND'.
      apply NoDup_remove_2 in ND'. intros I. apply ND'.
      apply in_or_app. left. exact I.
Qed.

Lemma holds_empty : holds (Dir []) [].
Proof.
  split; [reflexivity|]. split.
  - intros [|y m] d; simpl; split; try discriminate; contradiction.
  - intros es. discriminate.
Qed.

(** ** Extract, then pack *)

(** C1, as stated, fails: a well-formed EPUB archive (first entry
    [mimetype], stored; container descriptor present) with the directory
    entry [META-INF/] is extracted into a new directory and packed again;
    the new archive has no entry [META-INF/]. *)
Lemma pack_extract_drops_directory_entries :
  exists fs2 info B,
    hd_error sample_epub_dirs
    = Some (MkZipInfo ["mimetype"] ZIP_STORED (Raw "application/epub+zip"))
    /\ exists_ sample_fs (Path "/tmp/book") = false
    /\ extract_epub sample_fs sample_epub_dirs (Path "/tmp/book")
       = Ok (fs2, info)
    /\ pack_epub fs2 (extract_dir info) = Ok B
    /\ In (["META-INF"; ""], Raw "") (entries sample_epub_dirs)
    /\ ~ In (["META-INF"; ""], Raw "") (entries B).
Proof.
  eexists. eexists. eexists.
  split; [reflexivity|]. split; [reflexivity|].
  split; [vm_compute; reflexivity|]. split; [vm_compute; reflexivity|].
  split; [right; left; reflexivity|].
  simpl. intros H. repeat (destruct H as [H|H]; [discriminate H|]).
  exact H.
Qed.

(** C1 (amended): let A be an archive of regular files with plain and
    distinct names in which [mimetype] names the top-level file only, and
    let the target directory be empty once the extractor has made it.
    Then packing the directory produced by extracting A succeeds, the
    archive it writes has the entry set of A (names and contents), and its
    first entry is [mimetype], stored, whenever A has an entry
    [mimetype]. *)
Theorem pack_extract_roundtrip fs A out fs1 fs2 info :
  Path_mkdir fs out = Ok fs1 ->
  locate fs1 out = Some (Dir []) ->
  Forall (fun z => plain_name (filename z) = true) A ->
  Forall (fun z => mimetype_top (filename z) = true) A ->
  NoDup (map filename A) ->
  extract_epub fs A out = Ok (fs2, info) ->
  exists B,
    pack_epub fs2 (extract_dir info) = Ok B
    /\ (forall n d, In (n, d) (entries B) <-> In (n, d) (entries A))
    /\ (forall d, In (["mimetype"], d) (entries A) ->
                  exists rest,
                    B = MkZipInfo ["mimetype"] ZIP_STORED d :: rest).
Proof.
  intros MK LE PL MT ND X.
  destruct (extract_epub_info _ _ _ _ _ X) as [-> _].
  assert (XA : extractall fs1 A out = Ok fs2).
  { destruct (extractall fs1 A out) as [fs2'|e] eqn:XA.
    - rewrite (extract_epub_unfold _ _ _ _ _ MK XA) in X. cbv zeta in X.
      destruct (negb _); [discriminate|].
      destruct (ET_parse fs2' _) as [doc|e]; [|discriminate]. simpl in X.
      destruct (find doc [] rootfile_tag) as [rf|]; [|discriminate].
      destruct (get doc rf "full-path"); [|discriminate].
      inversion X; reflexivity.
    - unfold extract_epub in X. rewrite MK in X. simpl in X.
      rewrite XA in X. discriminate. }
  unfold locate in LE.
  destruct (realpath (root fs1) (start fs1 out) (parts out)) as [c0|e] eqn:R1;
    [|discriminate].
  destruct (extractall_holds A out c0 PL MT ND A [] fs1 (Dir []) fs2
              eq_refl R1 LE holds_empty XA) as (s2 & R2 & L2 & W2 & F2 & M2).
  destruct (pack_epub_entries fs2 out c0 s2 R2 L2 W2) as (rest & PK & IN).
  exists (first_entry s2 ++ rest). split; [exact PK|]. split.
  - intros n d. rewrite <- F2. unfold entries. rewrite in_map_iff. split.
    + intros (z & E & I). inversion E; subst n d. clear E.
      apply in_app_or in I. destruct I as [I|I].
      * unfold first_entry in I.
        destruct (lookup s2 ["mimetype"]) as [[d0|es]|] eqn:Lm.
        -- destruct I as [<-|[]]. exact Lm.
        -- exfalso. apply (M2 es). reflexivity.
        -- contradiction.
      * apply IN in I. destruct I as (rel & file & d & L & _ & ->). exact L.
    + intros L.
      assert (PM : plain_name n = true /\ mimetype_top n = true).
      { apply F2 in L. unfold entries in L. apply in_map_iff in L.
        destruct L as (z & E & I). inversion E; subst.
        rewrite Forall_forall in PL, MT. auto. }
      destruct PM as [PLn MTn].
      destruct n as [|x n]; [discriminate PLn|].
      destruct (exists_last (l := x :: n)) as (rel & file & E);
        [discriminate|]. rewrite E in *. clear E x n.
      destruct (String.eqb_spec file "mimetype") as [->|N].
      * apply mimetype_top_last in MTn. subst rel. simpl app in L.
        exists (MkZipInfo ["mimetype"] ZIP_STORED d). split; [reflexivity|].
        apply in_or_app. left. unfold first_entry. rewrite L. left.
        reflexivity.
      * exists (MkZipInfo (rel ++ [file]) ZIP_DEFLATED d).
        split; [reflexivity|]. apply in_or_app. right. apply IN.
        exists rel, file, d. auto.
  - intros d I. apply F2 in I. exists rest. unfold first_entry.
    rewrite I. reflexivity.
Qed.

Lemma pack_extract_roundtrip_witness :
  exists fs2 info B,
    extract_epub sample_fs sample_epub (Path "/tmp/book") = Ok (fs2, info)
    /\ pack_epub fs2 (extract_dir info) = Ok B
    /\ (forall n d, In (n, d) (entries B) <-> In (n, d) (entries sample_epub))
    /\ hd_error B
       = Some (MkZipInfo ["mimetype"] ZIP_STORED (Raw "application/epub+zip")).
Proof.
  destruct (Path_mkdir sample_fs (Path "/tmp/book")) as [fs1|] eqn:MK;
    [|discriminate MK].
  destruct (extract_epub sample_fs sample_epub (Path "/tmp/book"))
    as [[fs2 info]|] eqn:X; [|discriminate X].
  assert (LE : locate fs1 (Path "/tmp/book") = Some (Dir []))
    by (inversion MK; subst fs1; reflexivity).
  assert (PL : Forall (fun z => plain_name (filename z) = true) sample_epub)
    by (repeat constructor).
  assert (MT : Forall (fun z => mimetype_top (filename z) = true) sample_epub)
    by (repeat constructor).
  assert (ND : NoDup (map filename sample_epub)).
  { repeat constructor; simpl; intros H;
      repeat (destruct H as [H|H]; [discriminate H|]); exact H. }
  destruct (pack_extract_roundtrip
              sample_fs sample_epub (Path "/tmp/book") fs1 fs2 info
              MK LE PL MT ND X) as (B & PK & S & F).
  exists fs2, info, B. split; [reflexivity|]. split; [exact PK|].
  split; [exact S|].
  destruct (F (Raw "application/epub+zip")) as [rest ->];
    [left; reflexivity | reflexivity].
Defined.

(** * Further properties of the script *)

(** ** The Manifest Reader on an extracted directory *)

(** The loop of [get_content_files] in closed form. *)
Lemma get_content_files_eq fs dir opf :
  get_content_files fs dir opf
  = rmap (fun doc =>
            map (item_path (parent (dir // Path opf)) doc)
                (filter (item_kept fs (parent (dir // Path opf)) doc)
                        (manifest_items doc)))
         (ET_parse fs (dir // Path opf)).
Proof.
  unfold get_content_files, rmap, manifest_items.
  destruct (ET_parse fs (dir // Path opf)) as [doc|e]; [|reflexivity].
  cbv beta iota delta [bind].
  destruct (find doc [] manifest_tag) as [m|]; [|reflexivity].
  rewrite get_loop_spec. reflexivity.
Qed.

(** X1: [get_content_files] fails exactly as parsing the package document
    fails; otherwise it returns, in document order, the resolved paths of
    the manifest items whose media type is recognized and whose file
    exists, so every path it returns exists. *)
Theorem get_content_files_spec fs dir opf :
  get_content_files fs dir opf
  = rmap (fun doc =>
            map (item_path (parent (dir // Path opf)) doc)
                (filter (item_kept fs (parent (dir // Path opf)) doc)
                        (manifest_items doc)))
         (ET_parse fs (dir // Path opf))
  /\ (forall l, get_content_files fs dir opf = Ok l ->
                Forall (fun q => exists_ fs q = true) l).
Proof.
  split; [apply get_content_files_eq|]. intros l H.
  rewrite get_content_files_eq in H. unfold rmap in H.
  destruct (ET_parse fs (dir // Path opf)) as [doc|e]; [|discriminate].
  simpl in H. inversion H; subst l. apply Forall_forall. intros q I.
  apply in_map_iff in I. destruct I as (item & <- & I).
  apply filter_In in I. destruct I as [_ K]. unfold item_kept in K.
  apply andb_true_iff in K. apply K.
Qed.

(** ** The Metadata Editor: what it leaves alone *)

Lemma map_etag_update_nth (f : element -> element) cs : forall i,
  (forall c, etag (f c) = etag c) ->
  map etag (update_nth i f cs) = map etag cs.
Proof.
  induction cs as [|c cs IH]; intros [|i] H; simpl; try reflexivity.
  - rewrite H. reflexivity.
  - rewrite IH; auto.
Qed.

Lemma child_tags_set_text e r v :
  map etag (echildren (set_text e r v)) = map etag (echildren e).
Proof.
  destruct r as [|i r]; simpl; [reflexivity|].
  apply map_etag_update_nth. intros c. apply etag_set_text.
Qed.

Lemma deref_set_text_children p : forall e r v,
  match deref e p with
  | Some x =>
      exists x', deref (set_text e r v) p = Some x'
                 /\ map etag (echildren x') = map etag (echildren x)
  | None => deref (set_text e r v) p = None
  end.
Proof.
  induction p as [|i p IH]; intros e r v.
  - simpl. exists (set_text e r v). split; [reflexivity|].
    apply child_tags_set_text.
  - destruct r as [|j r].
    + simpl. destruct (nth_error (echildren e) i) as [c|]; [|reflexivity].
      destruct (deref c p) as [x|]; [|reflexivity].
      exists x. auto.
    + simpl. rewrite nth_error_update_nth.
      destruct (Nat.eqb j i).
      * destruct (nth_error (echildren e) i) as [c|]; simpl; [|reflexivity].
        apply IH.
      * destruct (nth_error (echildren e) i) as [c|]; [|reflexivity].
        destruct (deref c p) as [x|]; [|reflexivity].
        exists x. auto.
Qed.

Lemma findall_set_text e r v p tag :
  findall (set_text e r v) p tag = findall e p tag.
Proof.
  unfold findall. pose proof (deref_set_text_children p e r v) as H.
  destruct (deref e p) as [x|].
  - destruct H as (x' & -> & Hc).
    rewrite (child_indices_tags _ _ _ _ Hc). reflexivity.
  - rewrite H. reflexivity.
Qed.

(** The edits as at most two assignments of a text. *)
Lemma update_metadata_tree_steps doc lang_code title_suffix :
  update_metadata_tree doc lang_code title_suffix = doc
  \/ (exists r v, update_metadata_tree doc lang_code title_suffix
                  = set_text doc r v)
  \/ (exists r v r' v', update_metadata_tree doc lang_code title_suffix
                        = set_text (set_text doc r v) r' v').
Proof.
  destruct (find doc [] metadata_tag) as [pm|] eqn:M.
  - rewrite (update_metadata_tree_eq _ lang_code title_suffix _ M).
    unfold lang_step.
    destruct (find doc pm language_tag) as [pl|];
      destruct (find doc pm title_tag) as [pt|]; eauto;
      destruct (text_of doc pt) as [t|]; eauto;
      destruct (truthy title_suffix && truthy t
                && negb (str_in title_suffix t)); eauto 8.
  - left. apply update_metadata_tree_no_metadata, M.
Qed.

Lemma get_update_metadata_tree doc lang_code title_suffix r key :
  get (update_metadata_tree doc lang_code title_suffix) r key = get doc r key.
Proof.
  destruct (update_metadata_tree_steps doc lang_code title_suffix)
    as [->|[(p & v & ->)|(p & v & p' & v' & ->)]];
    rewrite ?get_set_text; reflexivity.
Qed.

Lemma findall_update_metadata_tree doc lang_code title_suffix r tag :
  findall (update_metadata_tree doc lang_code title_suffix) r tag
  = findall doc r tag.
Proof.
  destruct (update_metadata_tree_steps doc lang_code title_suffix)
    as [->|[(p & v & ->)|(p & v & p' & v' & ->)]];
    rewrite ?findall_set_text; reflexivity.
Qed.

(** What a successful call of the editor did to the file system. *)
Lemma update_metadata_inv fs dir opf lang_code title_suffix fs' :
  update_metadata fs dir opf lang_code title_suffix = Ok fs' ->
  exists c d doc,
    realpath (root fs) (start fs (dir // Path opf)) (parts (dir // Path opf))
    = Ok c
    /\ lookup (root fs) c = Some (File d)
    /\ parse_data d = Ok doc
    /\ put (root fs) c (File (Written (update_metadata_tree doc lang_code
                                                            title_suffix)))
       = Ok (root fs')
    /\ cwd fs' = cwd fs.
Proof.
  intros U.
  destruct (ET_parse fs (dir // Path opf)) as [doc|e] eqn:P.
  2:{ unfold update_metadata in U. rewrite P in U. discriminate. }
  destruct (ET_parse_file _ _ _ P) as (c & d & R & L & D).
  unfold update_metadata in U. rewrite P in U. simpl in U.
  unfold ET_write, write_file in U. rewrite R in U. simpl in U.
  rewrite L in U.
  destruct (put (root fs) c _) as [t'|e] eqn:PUT; [|discriminate].
  simpl in U. inversion U; subst fs'. exists c, d, doc. auto.
Qed.

Lemma locate_kinds fs fs' :
  cwd fs' = cwd fs ->
  (forall m, kind_of (lookup (root fs') m) = kind_of (lookup (root fs) m)) ->
  forall q, kind_of (locate fs' q) = kind_of (locate fs q).
Proof.
  intros C K q. unfold locate, start. rewrite C.
  rewrite (realpath_kind _ _ _ _ K).
  destruct (realpath (root fs) _ (parts q)) as [c|e]; [apply K | reflexivity].
Qed.

Lemma exists_kinds fs fs' q :
  kind_of (locate fs' q) = kind_of (locate fs q) ->
  exists_ fs' q = exists_ fs q.
Proof.
  unfold exists_.
  destruct (locate fs' q) as [[d|es]|], (locate fs q) as [[d'|es']|];
    simpl; congruence.
Qed.

(** X2: a successful run of the editor creates and removes nothing, keeps
    the current directory, and changes the contents of no file other than
    the package document. *)
Theorem update_metadata_frame fs dir opf lang_code title_suffix fs' :
  update_metadata fs dir opf lang_code title_suffix = Ok fs' ->
  cwd fs' = cwd fs
  /\ (forall q, kind_of (locate fs' q) = kind_of (locate fs q))
  /\ (forall q d,
        realpath (root fs) (start fs q) (parts q)
        <> realpath (root fs) (start fs (dir // Path opf))
                    (parts (dir // Path opf)) ->
        locate fs' q = Some (File d) <-> locate fs q = Some (File d)).
Proof.
  intros U. destruct (update_metadata_inv _ _ _ _ _ _ U)
    as (c & d0 & doc & R & L & _ & P & C).
  assert (K : forall m, kind_of (lookup (root fs') m)
                        = kind_of (lookup (root fs) m))
    by (intros m; eapply put_file_kind; eauto).
  split; [exact C|]. split; [apply locate_kinds; assumption|].
  intros q d N. unfold locate, start in *. rewrite C.
  rewrite (realpath_kind _ _ _ _ K).
  destruct (realpath (root fs) _ (parts q)) as [cq|e]; [|reflexivity].
  rewrite R in N.
  assert (ND : forall es, lookup (root fs) c <> Some (Dir es))
    by (intros es; rewrite L; discriminate).
  rewrite (put_files _ _ _ _ P ND cq d). split.
  - intros [[-> _]|[_ H]]; [congruence | exact H].
  - intros H. right. split; [congruence | exact H].
Qed.

Lemma update_metadata_frame_witness :
  exists fs',
    update_metadata sample_work (Path "work") "OEBPS/content.opf"
                    (Some "zh-CN") "(Chinese)" = Ok fs'
    /\ locate fs' (Path "work/OEBPS/chapter1.xhtml")
       = Some (File (Raw "<html/>")).
Proof.
  destruct (update_metadata sample_work (Path "work") "OEBPS/content.opf"
                            (Some "zh-CN") "(Chinese)") as [fs'|] eqn:U;
    [|discriminate U].
  exists fs'. split; [reflexivity|].
  apply (proj2 (proj2 (update_metadata_frame
                         sample_work (Path "work") "OEBPS/content.opf"
                         (Some "zh-CN") "(Chinese)" fs' U))
           (Path "work/OEBPS/chapter1.xhtml") (Raw "<html/>")).
  - discriminate.
  - reflexivity.
Defined.

(** X3: the editor fails exactly when the package document cannot be
    parsed (it is missing, a directory, or not well-formed XML), and with
    that error. *)
Theorem update_metadata_fails_as_parse fs dir opf lang_code title_suffix e :
  update_metadata fs dir opf lang_code title_suffix = Err e
  <-> ET_parse fs (dir // Path opf) = Err e.
Proof.
  destruct (ET_parse fs (dir // Path opf)) as [doc|e'] eqn:P.
  - destruct (update_metadata_ok fs dir opf lang_code title_suffix _ P)
      as (fs' & U & _). rewrite U. split; discriminate.
  - unfold update_metadata. rewrite P. simpl.
    split; intros H; inversion H; reflexivity.
Qed.

Lemma text_of_lang_step_other doc pm lang_code r :
  find doc pm language_tag <> Some r ->
  text_of (lang_step doc pm lang_code) r = text_of doc r.
Proof.
  intros N. unfold lang_step.
  destruct (find doc pm language_tag) as [pl|]; [|reflexivity].
  apply text_of_set_text_other. congruence.
Qed.

Lemma text_of_update_metadata_tree_other doc lang_code title_suffix pm r :
  find doc [] metadata_tag = Some pm ->
  find doc pm language_tag <> Some r ->
  find doc pm title_tag <> Some r ->
  text_of (update_metadata_tree doc lang_code title_suffix) r = text_of doc r.
Proof.
  intros M NL NT.
  rewrite (update_metadata_tree_eq _ lang_code title_suffix _ M).
  pose proof (text_of_lang_step_other doc pm lang_code r NL) as H.
  destruct (find doc pm title_tag) as [pt|]; [|exact H].
  destruct (text_of doc pt) as [t|]; [|exact H].
  destruct (truthy title_suffix && truthy t && negb (str_in title_suffix t));
    [|exact H].
  rewrite text_of_set_text_other; [exact H | congruence].
Qed.

(** X5: the tree that the editor writes has the elements and attributes
    of the parsed tree, and its texts, except those of the first
    [language] and the first [title] field of the first [metadata]
    element.  When the texts of the document, the code and the suffix are
    legal, the file reads back with the same elements and attributes and
    with every other text as the parser normalises it. *)
Theorem update_metadata_keeps_structure
  fs dir opf lang_code title_suffix doc :
  ET_parse fs (dir // Path opf) = Ok doc ->
  exists fs' w,
    update_metadata fs dir opf lang_code title_suffix = Ok fs'
    /\ locate fs' (dir // Path opf) = Some (File (Written w))
    /\ (forall r tag, find w r tag = find doc r tag)
    /\ (forall r tag, findall w r tag = findall doc r tag)
    /\ (forall r key, get w r key = get doc r key)
    /\ (find doc [] metadata_tag = None -> w = doc)
    /\ (forall pm r,
          find doc [] metadata_tag = Some pm ->
          find doc pm language_tag <> Some r ->
          find doc pm title_tag <> Some r ->
          text_of w r = text_of doc r)
    /\ (all_text legal_text doc = true ->
        legal_text lang_code = true ->
        xml_chars title_suffix = true ->
        exists doc',
          ET_parse fs' (dir // Path opf) = Ok doc'
          /\ (forall r tag, find doc' r tag = find doc r tag)
          /\ (forall r tag, findall doc' r tag = findall doc r tag)
          /\ (forall r key, get doc' r key = get doc r key)
          /\ (forall pm r,
                find doc [] metadata_tag = Some pm ->
                find doc pm language_tag <> Some r ->
                find doc pm title_tag <> Some r ->
                text_of doc' r = norm_text (text_of doc r))).
Proof.
  intros P.
  destruct (update_metadata_ok fs dir opf lang_code title_suffix _ P)
    as (fs' & U & W).
  exists fs', (update_metadata_tree doc lang_code title_suffix).
  split; [exact U|]. split; [exact W|].
  split; [intros; apply find_update_metadata_tree|].
  split; [intros; apply findall_update_metadata_tree|].
  split; [intros; apply get_update_metadata_tree|].
  split; [apply update_metadata_tree_no_metadata|].
  split; [intros pm r; apply text_of_update_metadata_tree_other|].
  intros A L S.
  exists (map_text norm_text
            (update_metadata_tree doc lang_code title_suffix)).
  split.
  { rewrite (ET_parse_written _ _ _ W). apply reparse_legal.
    apply legal_update_metadata_tree; assumption. }
  split; [intros; rewrite find_map_text; apply find_update_metadata_tree|].
  split; [intros; rewrite findall_map_text;
          apply findall_update_metadata_tree|].
  split; [intros; rewrite get_map_text; apply get_update_metadata_tree|].
  intros pm r M NL NT. rewrite text_of_map_text; [|reflexivity].
  rewrite (text_of_update_metadata_tree_other _ _ _ _ _ M NL NT).
  reflexivity.
Qed.

Lemma update_metadata_keeps_structure_witness :
  exists fs' doc',
    update_metadata sample_work (Path "work") "OEBPS/content.opf"
                    (Some "zh-CN") "(Chinese)" = Ok fs'
    /\ ET_parse fs' (Path "work" // Path "OEBPS/content.opf") = Ok doc'
    /\ findall doc' [1] item_tag = [[1; 0]; [1; 1]]
    /\ get doc' [1; 0] "href" = Some "chapter1.xhtml".
Proof.
  destruct (update_metadata_keeps_structure
              sample_work (Path "work") "OEBPS/content.opf" (Some "zh-CN")
              "(Chinese)" sample_opf eq_refl)
    as (fs' & w & U & _ & _ & _ & _ & _ & _ & R).
  destruct (R eq_refl eq_refl eq_refl) as (doc' & P & _ & FA & G & _).
  exists fs', doc'. split; [exact U|]. split; [exact P|].
  rewrite FA, G. split; reflexivity.
Defined.

Lemma update_metadata_exists fs dir opf lang_code title_suffix fs' q :
  update_metadata fs dir opf lang_code title_suffix = Ok fs' ->
  exists_ fs' q = exists_ fs q.
Proof.
  intros U. destruct (update_metadata_inv _ _ _ _ _ _ U)
    as (c & d & doc & R & L & _ & P & C).
  apply exists_kinds, locate_kinds; [exact C|].
  intros m. eapply put_file_kind; eauto.
Qed.

(** X6: editing the metadata with legal texts does not change the list of
    content files: for a document with legal texts (as every parsed
    document has), a code and a suffix of legal characters, the editor
    succeeds and [get_content_files] then returns what it returned
    before. *)
Theorem update_metadata_keeps_content_files
  fs dir opf lang_code title_suffix doc :
  ET_parse fs (dir // Path opf) = Ok doc ->
  all_text legal_text doc = true ->
  legal_text lang_code = true ->
  xml_chars title_suffix = true ->
  exists fs',
    update_metadata fs dir opf lang_code title_suffix = Ok fs'
    /\ get_content_files fs' dir opf = get_content_files fs dir opf.
Proof.
  intros P A L S.
  destruct (update_metadata_reread fs dir opf lang_code title_suffix doc
              P A L S) as (fs' & U & P').
  exists fs'. split; [exact U|].
  rewrite !get_content_files_eq, P, P'. unfold rmap. simpl.
  f_equal. unfold manifest_items.
  rewrite find_map_text, find_update_metadata_tree.
  destruct (find doc [] manifest_tag) as [m|]; [|reflexivity].
  rewrite findall_map_text, findall_update_metadata_tree.
  assert (G : forall item key,
             get_default (map_text norm_text
                            (update_metadata_tree doc lang_code title_suffix))
                         item key ""
             = get_default doc item key "").
  { intros item key. unfold get_default.
    rewrite get_map_text, get_update_metadata_tree. reflexivity. }
  rewrite (filter_ext _ (item_kept fs (parent (dir // Path opf)) doc)).
  - apply map_ext. intros item. unfold item_path. rewrite G. reflexivity.
  - intros item. unfold item_kept, item_path. rewrite !G.
    rewrite (update_metadata_exists _ _ _ _ _ _ _ U). reflexivity.
Qed.

Lemma update_metadata_keeps_content_files_witness :
  exists fs',
    update_metadata sample_work (Path "work") "OEBPS/content.opf"
                    (Some "zh-CN") "(Chinese)" = Ok fs'
    /\ get_content_files fs' (Path "work") "OEBPS/content.opf"
       = Ok [Path "work/OEBPS/chapter1.xhtml"].
Proof.
  destruct (update_metadata_keeps_content_files
              sample_work (Path "work") "OEBPS/content.opf" (Some "zh-CN")
              "(Chinese)" sample_opf eq_refl eq_refl eq_refl eq_refl)
    as (fs' & U & G).
  exists fs'. split; [exact U|]. rewrite G. reflexivity.
Defined.

(** X7: the suffix is appended at most once whatever language codes the
    runs are given: for a document with legal texts, two codes of legal
    characters and a suffix of legal characters without carriage return,
    a run with the first code and a run with the second both succeed and
    the second leaves the title as the first left it. *)
Theorem update_metadata_title_any_language
  fs dir opf lang1 lang2 title_suffix doc :
  ET_parse fs (dir // Path opf) = Ok doc ->
  all_text legal_text doc = true ->
  legal_text lang1 = true ->
  legal_text lang2 = true ->
  stable_string title_suffix = true ->
  exists fs1 fs2,
    update_metadata fs dir opf lang1 title_suffix = Ok fs1
    /\ update_metadata fs1 dir opf lang2 title_suffix = Ok fs2
    /\ doc_title fs2 (dir // Path opf) = doc_title fs1 (dir // Path opf).
Proof.
  intros P A L1 L2 S. unfold stable_string in S.
  apply andb_true_iff in S. destruct S as [S N].
  destruct (update_metadata_reread fs dir opf lang1 title_suffix doc
              P A L1 S) as (fs1 & U1 & P1).
  assert (A1 : all_text legal_text
                 (map_text norm_text
                    (update_metadata_tree doc lang1 title_suffix)) = true).
  { apply legal_map_norm, legal_update_metadata_tree; assumption. }
  destruct (update_metadata_reread fs1 dir opf lang2 title_suffix _
              P1 A1 L2 S) as (fs2 & U2 & P2).
  exists fs1, fs2. split; [exact U1|]. split; [exact U2|].
  unfold doc_title, rmap. rewrite P1, P2. simpl.
  rewrite !title_of_map_norm, !title_of_update_metadata_tree.
  rewrite title_of_map_norm, title_of_update_metadata_tree.
  rewrite (append_suffix_reread _ _ N). reflexivity.
Qed.

Lemma update_metadata_title_any_language_witness :
  exists fs1 fs2,
    update_metadata sample_work (Path "work") "OEBPS/content.opf"
                    (Some "zh-CN") "(Chinese)" = Ok fs1
    /\ update_metadata fs1 (Path "work") "OEBPS/content.opf"
                       (Some "zh-TW") "(Chinese)" = Ok fs2
    /\ doc_title fs2 (Path "work" // Path "OEBPS/content.opf")
       = Ok (Some "My Book (Chinese)").
Proof.
  destruct (update_metadata_title_any_language
              sample_work (Path "work") "OEBPS/content.opf" (Some "zh-CN")
              (Some "zh-TW") "(Chinese)" sample_opf
              eq_refl eq_refl eq_refl eq_refl eq_refl)
    as (fs1 & fs2 & U1 & U2 & T).
  exists fs1, fs2. split; [exact U1|]. split; [exact U2|].
  rewrite T. inversion U1; subst fs1. reflexivity.
Defined.

(** ** The Archive Packer on other sources *)

(** X8: a source path that is not a directory (it is missing, or it is a
    regular file) raises nothing: the packer writes an archive without
    entries. *)
Theorem pack_epub_not_a_directory fs source_dir :
  is_dir fs source_dir = false -> pack_epub fs source_dir = Ok [].
Proof.
  unfold is_dir. intros H.
  destruct (locate fs source_dir) as [[d|es]|] eqn:L; [|discriminate|].
  - assert (M : locate fs (child source_dir "mimetype") = None).
    { unfold locate in *. unfold child, start in *. simpl.
      rewrite realpath_app.
      destruct (realpath (root fs) _ (parts source_dir)) as [c|e];
        [|reflexivity].
      simpl. rewrite L. reflexivity. }
    unfold pack_epub, exists_, os_walk. rewrite M, L. reflexivity.
  - unfold pack_epub, exists_, os_walk.
    rewrite (locate_child_none _ _ _ L), L. reflexivity.
Qed.

Lemma pack_epub_not_a_directory_witness :
  pack_epub sample_work (Path "work/mimetype") = Ok [].
Proof.
  apply (pack_epub_not_a_directory sample_work (Path "work/mimetype")).
  reflexivity.
Defined.










(** ** The Archive Extractor: what it leaves alone *)

(** Putting something where there is no directory keeps every other
    file. *)
Lemma put_keeps_files q : forall t t' new,
  put t q new = Ok t' ->
  (forall es, lookup t q <> Some (Dir es)) ->
  forall m d, m <> q -> lookup t m = Some (File d) ->
              lookup t' m = Some (File d).
Proof.
  induction q as [|x q IH]; intros t t' new H ND m d N L; simpl in H.
  - exfalso. destruct t as [d0|es]; [|eapply ND; reflexivity].
    destruct m; [contradiction | discriminate L].
  - destruct t as [d0|es]; [discriminate|].
    destruct (assoc x es) as [ch|] eqn:A.
    + destruct (put ch q new) as [ch'|e] eqn:P; [|discriminate].
      simpl in H. inversion H; subst t'.
      assert (ND' : forall es', lookup ch q <> Some (Dir es')).
      { intros es' L'. apply (ND es'). simpl. rewrite A. exact L'. }
      destruct m as [|y m]; simpl in *; [discriminate L|].
      rewrite assoc_replace, A.
      destruct (String.eqb_spec y x) as [->|Nyx]; [|exact L].
      rewrite A in L. eapply IH; eauto. congruence.
    + destruct q as [|z q]; [|discriminate]. inversion H; subst t'.
      destruct m as [|y m]; simpl in *; [discriminate L|].
      rewrite assoc_snoc. destruct (assoc y es); [exact L | discriminate L].
Qed.

(** The body of [_extract_member] once the target is known. *)
Lemma extract_body_keeps fs target (isdir : bool) data fs' :
  (fs1 <- (if exists_at fs (removelast target) then Ok fs
           else t <- makedirs_node (root fs) (removelast target) ;;
                Ok (MkFs t (cwd fs))) ;;
   if isdir then
     if isdir_at fs1 target then Ok fs1
     else
       match lookup (root fs1) target with
       | Some _ => Err FileExistsError
       | None => t <- put (root fs1) target (Dir []) ;; Ok (MkFs t (cwd fs1))
       end
   else
     match lookup (root fs1) target with
     | Some (Dir _) => Err IsADirectoryError
     | _ => t <- put (root fs1) target (File data) ;; Ok (MkFs t (cwd fs1))
     end) = Ok fs' ->
  cwd fs' = cwd fs
  /\ forall m d, m <> target -> lookup (root fs) m = Some (File d) ->
                 lookup (root fs') m = Some (File d).
Proof.
  set (m1 := if exists_at fs _ then _ else _).
  assert (I : forall fs1, m1 = Ok fs1 ->
              cwd fs1 = cwd fs
              /\ forall m d, lookup (root fs) m = Some (File d) ->
                             lookup (root fs1) m = Some (File d)).
  { unfold m1. intros fs1 E. destruct (exists_at _ _).
    - inversion E; subst. auto.
    - destruct (makedirs_node (root fs) _) as [t|e] eqn:MK; [|discriminate].
      simpl in E. inversion E; subst fs1. split; [reflexivity|].
      intros m d L. simpl. apply (makedirs_files _ _ _ MK). exact L. }
  destruct m1 as [fs1|e]; [|discriminate]. simpl.
  destruct (I fs1 eq_refl) as [C1 K1]. clear I. intros H.
  assert (S : fs' = fs1
              \/ exists new t',
                   (forall es, lookup (root fs1) target <> Some (Dir es))
                   /\ put (root fs1) target new = Ok t'
                   /\ fs' = MkFs t' (cwd fs1)).
  { destruct isdir.
    - destruct (isdir_at fs1 target); [inversion H; auto|].
      destruct (lookup (root fs1) target) as [n|] eqn:L; [discriminate|].
      destruct (put (root fs1) target (Dir [])) as [t'|e] eqn:P;
        [|discriminate].
      simpl in H. inversion H. right. exists (Dir []), t'.
      repeat split; auto. discriminate.
    - destruct (lookup (root fs1) target) as [[d0|es]|] eqn:L;
        try discriminate;
        (destruct (put (root fs1) target (File data)) as [t'|e] eqn:P;
         [|discriminate]);
        simpl in H; inversion H; right; exists (File data), t';
        repeat split; auto; discriminate. }
  destruct S as [->|(new & t' & ND & P & ->)]; [auto|].
  split; [exact C1|]. intros m d N L. simpl.
  apply (put_keeps_files _ _ _ _ P ND _ _ N). apply K1, L.
Qed.

Lemma extract_member_keeps fs z out fs' :
  extract_member fs z out = Ok fs' ->
  cwd fs' = cwd fs
  /\ forall m d, m <> target_of fs z out ->
                 lookup (root fs) m = Some (File d) ->
                 lookup (root fs') m = Some (File d).
Proof.
  unfold extract_member, target_of. cbv zeta.
  destruct (filter _ (filename z)) as [|x l];
    destruct (zi_is_dir z); try discriminate; intros H;
    [ exact (extract_body_keeps fs _ true (zdata z) fs' H)
    | exact (extract_body_keeps fs _ true (zdata z) fs' H)
    | exact (extract_body_keeps fs _ false (zdata z) fs' H) ].
Qed.

Lemma target_of_cwd fs fs' z out :
  cwd fs' = cwd fs -> target_of fs' z out = target_of fs z out.
Proof. intros C. unfold target_of, abspath, start. rewrite C. reflexivity. Qed.

Lemma getinfo_In zf name z : getinfo zf name = Some z -> In z zf.
Proof.
  unfold getinfo. intros H. apply find_some in H. apply in_rev. tauto.
Qed.

Lemma extractall_keeps zf out m d names : forall fs fs',
  foldM (fun fs name =>
           match getinfo zf name with
           | Some member => extract_member fs member out
           | None => Err (ValueError "no such member")
           end) names fs = Ok fs' ->
  (forall z, In z zf -> target_of fs z out <> m) ->
  lookup (root fs) m = Some (File d) ->
  cwd fs' = cwd fs /\ lookup (root fs') m = Some (File d).
Proof.
  induction names as [|name names IH]; intros fs fs' H T L; simpl in H.
  - inversion H; subst. auto.
  - destruct (getinfo zf name) as [z|] eqn:G; [|discriminate].
    destruct (extract_member fs z out) as [fs1|e] eqn:E; [|discriminate].
    simpl in H. destruct (extract_member_keeps _ _ _ _ E) as [C K].
    destruct (IH fs1 fs' H) as [C' L'].
    + intros z' I. rewrite (target_of_cwd _ _ _ _ C). apply T, I.
    + apply K; [|exact L]. intros ->. apply (T z); [|reflexivity].
      eapply getinfo_In, G.
    + split; [congruence | exact L'].
Qed.

(** Making directories keeps every file. *)
Lemma os_mkdir_keeps fs p fs' :
  os_mkdir fs p = Ok fs' ->
  cwd fs' = cwd fs
  /\ forall m d, lookup (root fs) m = Some (File d) ->
                 lookup (root fs') m = Some (File d).
Proof.
  unfold os_mkdir.
  destruct (realpath (root fs) (start fs p) (parts p)) as [c|e];
    [|discriminate].
  simpl. destruct (lookup (root fs) c) as [n|] eqn:L; [discriminate|].
  destruct (put (root fs) c (Dir [])) as [t|e] eqn:P; [|discriminate].
  simpl. intros H. inversion H; subst fs'. split; [reflexivity|].
  intros m d Lm. simpl. eapply put_keeps_files; eauto.
  - intros es. rewrite L. discriminate.
  - intros ->. congruence.
Qed.

Lemma mkdir_exist_ok_keeps fs p fs' :
  mkdir_exist_ok fs p = Ok fs' ->
  cwd fs' = cwd fs
  /\ forall m d, lookup (root fs) m = Some (File d) ->
                 lookup (root fs') m = Some (File d).
Proof.
  unfold mkdir_exist_ok.
  destruct (os_mkdir fs p) as [fs1|e] eqn:M.
  - intros H. inversion H; subst. apply (os_mkdir_keeps _ _ _ M).
  - destruct e; try discriminate;
      (destruct (is_dir fs p); [|discriminate]);
      intros H; inversion H; subst; auto.
Qed.

Lemma Path_mkdir_rev_keeps anch rparts : forall fs fs',
  Path_mkdir_rev fs anch rparts = Ok fs' ->
  cwd fs' = cwd fs
  /\ forall m d, lookup (root fs) m = Some (File d) ->
                 lookup (root fs') m = Some (File d).
Proof.
  induction rparts as [|x rparent IH]; intros fs fs' H; simpl in H.
  - destruct (os_mkdir fs _) as [fs1|e] eqn:M.
    + inversion H; subst. apply (os_mkdir_keeps _ _ _ M).
    + destruct e; try discriminate;
        (destruct (is_dir fs _); [|discriminate]);
        inversion H; subst; auto.
  - destruct (os_mkdir fs _) as [fs1|e] eqn:M.
    + inversion H; subst. apply (os_mkdir_keeps _ _ _ M).
    + destruct e;
        try (destruct (is_dir fs _); [|discriminate];
             inversion H; subst; auto; fail).
      destruct (Path_mkdir_rev fs anch rparent) as [fs1|e] eqn:R;
        [|discriminate].
      simpl in H. destruct (IH _ _ R) as [C1 K1].
      destruct (mkdir_exist_ok_keeps _ _ _ H) as [C2 K2].
      split; [congruence|]. intros m d L. apply K2, K1, L.
Qed.

Lemma extract_epub_stages fs zf out fs' info :
  extract_epub fs zf out = Ok (fs', info) ->
  exists fs1,
    Path_mkdir fs out = Ok fs1 /\ extractall fs1 zf out = Ok fs'.
Proof.
  unfold extract_epub.
  destruct (Path_mkdir fs out) as [fs1|e]; [simpl|discriminate].
  destruct (extractall fs1 zf out) as [fs2|e] eqn:E; [simpl|discriminate].
  destruct (negb (exists_ fs2 _)); [discriminate|].
  destruct (ET_parse fs2 _) as [doc|e]; [simpl|discriminate].
  destruct (find doc [] rootfile_tag) as [rf|]; [|discriminate].
  destruct (get doc rf "full-path") as [s|]; [|discriminate].
  intros H. inversion H; subst. exists fs1. split; [reflexivity | exact E].
Qed.

(** The components that extraction keeps of a name never step out of the
    directory they are appended to. *)
Lemma fold_left_step_filtered l : forall cur,
  fold_left step (filter (fun x => negb (mem_str x [""; "."; ".."])) l) cur
  = cur ++ filter (fun x => negb (mem_str x [""; "."; ".."])) l.
Proof.
  induction l as [|a l IH]; intros cur; cbn [filter].
  - simpl. rewrite app_nil_r. reflexivity.
  - destruct (mem_str a [""; "."; ".."]) eqn:M; cbn [negb]; [apply IH|].
    cbn [fold_left]. rewrite IH. unfold step.
    simpl in M. destruct (String.eqb a ".."). 
    + rewrite !orb_true_r in M. discriminate.
    + rewrite <- app_assoc. reflexivity.
Qed.

Lemma target_of_below fs z out :
  target_of fs z out
  = abspath fs out
    ++ filter (fun x => negb (mem_str x [""; "."; ".."])) (filename z).
Proof.
  unfold target_of, abspath, start. simpl. rewrite fold_left_app.
  apply fold_left_step_filtered.
Qed.

(** X10: a successful extraction keeps the current directory and every
    file that is not the target of an entry of the archive; in particular
    it changes no file outside the target directory, whatever the names
    in the archive (absolute names, names with [..]). *)
Theorem extract_epub_keeps_files fs zf out fs' info :
  extract_epub fs zf out = Ok (fs', info) ->
  cwd fs' = cwd fs
  /\ (forall m d,
        lookup (root fs) m = Some (File d) ->
        (forall z, In z zf -> target_of fs z out <> m) ->
        lookup (root fs') m = Some (File d))
  /\ (forall m d,
        lookup (root fs) m = Some (File d) ->
        (forall q, m <> abspath fs out ++ q) ->
        lookup (root fs') m = Some (File d)).
Proof.
  intros X. destruct (extract_epub_stages _ _ _ _ _ X) as (fs1 & M & E).
  destruct (Path_mkdir_rev_keeps _ _ _ _ M) as [C1 K1].
  assert (A : forall m d,
             lookup (root fs) m = Some (File d) ->
             (forall z, In z zf -> target_of fs z out <> m) ->
             cwd fs' = cwd fs /\ lookup (root fs') m = Some (File d)).
  { intros m d L T.
    destruct (extractall_keeps zf out m d _ _ _ E) as [C2 L2].
    - intros z I. rewrite (target_of_cwd _ _ _ _ C1). apply T, I.
    - apply K1, L.
    - split; [congruence | exact L2]. }
  split; [|split].
  - unfold extractall in E. clear A K1 X.
    assert (G : forall names f1 f2,
               foldM (fun fs name =>
                        match getinfo zf name with
                        | Some member => extract_member fs member out
                        | None => Err (ValueError "no such member")
                        end) names f1 = Ok f2 -> cwd f2 = cwd f1).
    { induction names as [|n names IH]; intros f1 f2 H; simpl in H.
      - inversion H; reflexivity.
      - destruct (getinfo zf n) as [z|]; [|discriminate].
        destruct (extract_member f1 z out) as [f3|e] eqn:EM; [|discriminate].
        simpl in H. apply IH in H.
        destruct (extract_member_keeps _ _ _ _ EM) as [C _]. congruence. }
    rewrite (G _ _ _ E). exact C1.
  - intros m d L T. apply (A m d L T).
  - intros m d L O. apply (A m d L). intros z _ E'.
    apply (O (filter (fun x => negb (mem_str x [""; "."; ".."]))
                     (filename z))).
    rewrite <- E'. apply target_of_below.
Qed.

Lemma extract_epub_keeps_files_witness :
  exists fs' info,
    extract_epub sample_work sample_epub (Path "/tmp/book") = Ok (fs', info)
    /\ lookup (root fs') ["home"; "u"; "work"; "mimetype"]
       = Some (File (Raw "application/epub+zip")).
Proof.
  destruct (extract_epub sample_work sample_epub (Path "/tmp/book"))
    as [[fs' info]|] eqn:X; [|discriminate X].
  exists fs', info. split; [reflexivity|].
  apply (proj2 (proj2 (extract_epub_keeps_files
                         sample_work sample_epub (Path "/tmp/book")
                         fs' info X))).
  - reflexivity.
  - intros q E. vm_compute in E. discriminate E.
Defined.

(** X11: after expansion, a container descriptor that is not well-formed
    XML makes the extractor fail with [ParseError], one that is a
    directory with [IsADirectoryError], and a rootfile without a
    [full-path] attribute with [TypeError]; none of these is one of the
    two errors the extractor raises itself. *)
Theorem extract_epub_descriptor_errors fs zf out fs1 fs2 :
  Path_mkdir fs out = Ok fs1 ->
  extractall fs1 zf out = Ok fs2 ->
  let container_path := child (child out "META-INF") "container.xml" in
  (forall b, locate fs2 container_path = Some (File (Raw b)) ->
             extract_epub fs zf out = Err ParseError)
  /\ (forall es, locate fs2 container_path = Some (Dir es) ->
                 extract_epub fs zf out = Err IsADirectoryError)
  /\ (forall doc rootfile,
        ET_parse fs2 container_path = Ok doc ->
        find doc [] rootfile_tag = Some rootfile ->
        get doc rootfile "full-path" = None ->
        extract_epub fs zf out = Err TypeError)
  /\ ~ FormatError ParseError
  /\ ~ FormatError IsADirectoryError
  /\ ~ FormatError TypeError.
Proof.
  intros M X container_path.
  rewrite (extract_epub_unfold _ _ _ _ _ M X). fold container_path.
  cbv zeta. unfold exists_, ET_parse.
  split; [|split; [|split]].
  - intros b L. rewrite L. reflexivity.
  - intros es L. rewrite L. reflexivity.
  - intros doc rf P F G.
    destruct (locate fs2 container_path) as [[d|es]|];
      try discriminate P.
    rewrite P. simpl. rewrite F, G. reflexivity.
  - repeat split; intros [H|H]; discriminate H.
Qed.

Lemma extract_epub_descriptor_errors_witness :
  extract_epub sample_fs
    [MkZipInfo ["mimetype"] ZIP_STORED (Raw "application/epub+zip");
     MkZipInfo ["META-INF"; "container.xml"] ZIP_DEFLATED (Raw "<container")]
    (Path "/tmp/book")
  = Err ParseError.
Proof.
  destruct (Path_mkdir sample_fs (Path "/tmp/book")) as [fs1|] eqn:M;
    [|discriminate M].
  destruct (extractall fs1
              [MkZipInfo ["mimetype"] ZIP_STORED (Raw "application/epub+zip");
               MkZipInfo ["META-INF"; "container.xml"] ZIP_DEFLATED
                         (Raw "<container")]
              (Path "/tmp/book")) as [fs2|] eqn:X;
    [|inversion M; subst fs1; discriminate X].
  apply (proj1 (extract_epub_descriptor_errors
                  sample_fs _ (Path "/tmp/book") fs1 fs2 M X)
           "<container").
  inversion M; subst fs1. inversion X; subst fs2. reflexivity.
Defined.

(** Whatever has something below it is a directory. *)
Lemma locate_child_is_dir fs p name n :
  locate fs (child p name) = Some n -> is_dir fs p = true.
Proof.
  unfold is_dir, locate, child, start. simpl. rewrite realpath_app.
  destruct (realpath (root fs) _ (parts p)) as [c|e]; [simpl|discriminate].
  destruct (lookup (root fs) c) as [[d|es]|]; [discriminate | | discriminate].
  reflexivity.
Qed.

(** X12: after a successful extraction the target directory and its
    [META-INF] are directories and [META-INF/container.xml] is a
    well-formed XML document with a rootfile that carries the returned
    package-document path. *)
Theorem extract_epub_leaves_container fs zf out fs' info :
  extract_epub fs zf out = Ok (fs', info) ->
  is_dir fs' out = true
  /\ is_dir fs' (child out "META-INF") = true
  /\ exists d doc rootfile,
       locate fs' (child (child out "META-INF") "container.xml")
       = Some (File d)
       /\ parse_data d = Ok doc
       /\ find doc [] rootfile_tag = Some rootfile
       /\ get doc rootfile "full-path" = Some (opf_path info).
Proof.
  intros X. destruct (extract_epub_stages _ _ _ _ _ X) as (fs1 & M & E).
  rewrite (extract_epub_unfold _ _ _ _ _ M E) in X. cbv zeta in X.
  destruct (negb (exists_ fs' _)); [discriminate|].
  unfold ET_parse in X.
  destruct (locate fs' (child (child out "META-INF") "container.xml"))
    as [[d|es]|] eqn:L; try discriminate.
  destruct (parse_data d) as [doc|e] eqn:PD; [|discriminate].
  simpl in X.
  destruct (find doc [] rootfile_tag) as [rf|] eqn:F; [|discriminate].
  destruct (get doc rf "full-path") as [s|] eqn:G; [|discriminate].
  inversion X; subst info. simpl.
  pose proof (locate_child_is_dir _ _ _ _ L) as D.
  split; [|split; [exact D|]].
  - unfold is_dir in D.
    destruct (locate fs' (child out "META-INF")) as [n|] eqn:L';
      [|discriminate].
    apply (locate_child_is_dir _ _ _ _ L').
  - exists d, doc, rf. auto.
Qed.

Lemma extract_epub_leaves_container_witness :
  exists fs' info,
    extract_epub sample_fs sample_epub (Path "work") = Ok (fs', info)
    /\ is_dir fs' (Path "work") = true
    /\ is_dir fs' (child (Path "work") "META-INF") = true.
Proof.
  destruct (extract_epub sample_fs sample_epub (Path "work"))
    as [[fs' info]|] eqn:X; [|discriminate X].
  destruct (extract_epub_leaves_container
              sample_fs sample_epub (Path "work") fs' info X)
    as (D1 & D2 & _).
  exists fs', info. split; [reflexivity|]. split; assumption.
Defined.
